(** * Update delivery of the Telegram bot client (bot.go)

    A shallow embedding of the update-delivery half of [bot.go]:
    [GetUpdates], the polling goroutine started by [GetUpdatesChan],
    [StopReceivingUpdates], [ListenForWebhook], [HandleUpdate] and the
    constructor [NewBotAPIWithClient].

    Go's [int] is modelled as [Z] together with its 64-bit two's complement
    wrap-around; a buffered channel is a record holding the queue, the
    capacity, the closed flag and the values of the senders parked on it;
    the goroutine is a step function over an explicit program point.

    The first half of the file holds the model, the second half the
    properties. *)

From stdpp Require Import gmap strings list fin_maps pretty.
From Stdlib Require Import ZArith Lia Sorted.

Local Open Scope Z_scope.

(** ** Go's [int] *)

Module GoInt.

(** [int] has 64 bits on amd64 and arm64, which is what is modelled; on a
    32-bit platform the same wrap-around sits at [2 ^ 31 - 1]. *)
Definition int_bits : Z := 64.
Definition max_int : Z := 2 ^ (int_bits - 1) - 1.
Definition min_int : Z := - 2 ^ (int_bits - 1).

Definition in_range (z : Z) : Prop := min_int <= z <= max_int.

(** Signed overflow wraps around (Go specification, "Integer overflow"). *)
Definition wrap (z : Z) : Z :=
  (z + 2 ^ (int_bits - 1)) mod 2 ^ int_bits - 2 ^ (int_bits - 1).

Definition add (a b : Z) : Z := wrap (a + b).

End GoInt.

(** ** Data *)

(** The records [Update], [UpdateConfig] and [User] are declared outside
    [bot.go]; the code below reads [UpdateID], [Offset], [Limit] and
    [Timeout] only.  Whatever else an [Update] carries travels along as
    [Payload]. *)
Record Update : Type := mkUpdate {
  UpdateID : Z;
  Payload : string
}.

Record UpdateConfig : Type := mkUpdateConfig {
  Offset : Z;
  Limit : Z;
  Timeout : Z
}.

Record User : Type := mkUser {
  UserName : string
}.

Definition set_Offset (o : Z) (c : UpdateConfig) : UpdateConfig :=
  {| Offset := o; Limit := Limit c; Timeout := Timeout c |}.

(** A Go [error] value, by its dynamic type and its text.  [errors_New] is
    a value built by [errors.New]; [foreign_error] is an error of another
    dynamic type, named by [origin].  Two [errors.New] values with the same
    text differ in Go by their address only, which no code here looks at;
    they are one value in this model. *)
Inductive error : Type :=
  | errors_New (text : string)
  | foreign_error (origin : string) (text : string).

Definition Error (e : error) : string :=
  match e with
  | errors_New text => text
  | foreign_error _ text => text
  end.

(** The sentinel errors of package [io], both made by [errors.New]. *)
Definition io_EOF : error := errors_New "EOF".
Definition io_ErrUnexpectedEOF : error := errors_New "unexpected EOF".

(** An [io.Reader], by what reading it to the end gives: the bytes, and the
    error that ends them, if it is not the end of the data. *)
Record reader : Type := mkReader {
  reader_data : string;
  reader_error : option error
}.

(** [strings.NewReader(s)] *)
Definition strings_NewReader (s : string) : reader :=
  {| reader_data := s; reader_error := None |}.

(** A runtime panic; an unrecovered one ends the process. *)
Inductive panic : Type :=
  | close_of_closed_channel
  | send_on_closed_channel
  | makechan_size_out_of_range
  | http_pattern_refused (pattern : string).

(** [time.Duration] counts nanoseconds. *)
Definition Second : Z := 1000000000.

(** ** [url.Values] and [strconv.Itoa] *)

Definition strconv_Itoa (i : Z) : string := pretty i.

(** [Values.Add] appends the value to the list stored under the key. *)
Definition Values_Add (key value : string) (v : gmap string (list string))
  : gmap string (list string) :=
  <[key := default [] (v !! key) ++ [value]]> v.

(** ** The client *)

(** [shutdownChannel] is an unbuffered channel nobody sends on: all that
    matters is whether it has been closed.  The [Client] field is the
    transport; its answers are supplied call by call (see [transport]). *)
Record BotAPI : Type := mkBotAPI {
  Token : string;
  Buffer : Z;
  Self : option User;
  shutdownChannel : bool;
  apiEndpoint : string
}.

Definition set_shutdownChannel (b : bool) (bot : BotAPI) : BotAPI :=
  {| Token := Token bot; Buffer := Buffer bot; Self := Self bot;
     shutdownChannel := b; apiEndpoint := apiEndpoint bot |}.

(** [NewBotAPIWithClient] (bot.go, l. 57-75); [GetMe] is what the call
    [bot.GetMe()] returns. *)
Definition NewBotAPIWithClient (token endpoint : string) (GetMe : error + User)
  : error + BotAPI :=
  let bot := {| Token := token; Buffer := 100; Self := None;
                shutdownChannel := false; apiEndpoint := endpoint |} in
  match GetMe with
  | inl err => inl err
  | inr self =>
      inr {| Token := Token bot; Buffer := Buffer bot; Self := Some self;
             shutdownChannel := shutdownChannel bot;
             apiEndpoint := apiEndpoint bot |}
  end.

(** ** [GetUpdates] *)

(** The parameters [GetUpdates] (bot.go, l. 399-414) hands to
    [MakeRequest]. *)
Definition GetUpdates_values (config : UpdateConfig) : gmap string (list string) :=
  let v : gmap string (list string) := ∅ in
  let v := if negb (Offset config =? 0)
           then Values_Add "offset" (strconv_Itoa (Offset config)) v else v in
  let v := if 0 <? Limit config
           then Values_Add "limit" (strconv_Itoa (Limit config)) v else v in
  let v := if 0 <? Timeout config
           then Values_Add "timeout" (strconv_Itoa (Timeout config)) v else v in
  v.

(** One round trip of [MakeRequest] that decodes a list of updates: the
    endpoint and the parameters go out, an error or the decoded result comes
    back. *)
Definition transport : Type :=
  string -> gmap string (list string) -> error + list Update.

Definition GetUpdates (MakeRequest : transport) (config : UpdateConfig)
  : error + list Update :=
  MakeRequest "getUpdates" (GetUpdates_values config).

(** ** Channels of [Update] *)

(** [buf] is the queue, oldest value first; [sendq] holds the values of the
    senders parked on a full channel, in arrival order.  A receiver that
    waits on an empty channel is not recorded: it is a receiver that has not
    received yet. *)
Record chan : Type := mkChan {
  buf : list Update;
  cap : Z;
  closed : bool;
  sendq : list Update
}.

(** [make(chan Update, size)].  [runtime.makechan] panics with "makechan:
    size out of range" for a negative size and for a size whose buffer does
    not fit the address space,
    [size * unsafe.Sizeof(Update{}) > maxAlloc - hchanSize].  That bound is
    a constant of the platform and of the declaration of [Update]
    (types.go); [maxchan] is the largest size that passes it. *)
Definition make_chan (maxchan : N) (size : Z) : panic + chan :=
  if (size <? 0) || (Z.of_N maxchan <? size)
  then inl makechan_size_out_of_range
  else inr {| buf := []; cap := size; closed := false; sendq := [] |}.

Inductive send_result : Type :=
  | SendDone (c : chan)
  | SendParked (c : chan)
  | SendPanic.

(** [c <- u] *)
Definition chan_send (c : chan) (u : Update) : send_result :=
  if closed c then SendPanic
  else if Z.of_nat (length (buf c)) <? cap c
  then SendDone {| buf := buf c ++ [u]; cap := cap c;
                   closed := closed c; sendq := sendq c |}
  else SendParked {| buf := buf c; cap := cap c;
                     closed := closed c; sendq := sendq c ++ [u] |}.

Inductive recv_result : Type :=
  | RecvValue (u : Update) (c : chan)
  | RecvClosed
  | RecvParked.

(** [<-c]: the oldest queued value; the first parked sender, if any, is
    woken and its value takes the freed slot (or is handed over directly
    when the channel has no buffer). *)
Definition chan_recv (c : chan) : recv_result :=
  match buf c, sendq c with
  | x :: b, [] =>
      RecvValue x {| buf := b; cap := cap c; closed := closed c; sendq := [] |}
  | x :: b, s :: q =>
      RecvValue x {| buf := b ++ [s]; cap := cap c; closed := closed c; sendq := q |}
  | [], s :: q =>
      RecvValue s {| buf := []; cap := cap c; closed := closed c; sendq := q |}
  | [], [] => if closed c then RecvClosed else RecvParked
  end.

(** [close(c)]: closing twice panics; senders parked on the channel wake up
    and panic. *)
Definition chan_close (c : chan) : panic + chan :=
  if closed c then inl close_of_closed_channel
  else match sendq c with
       | [] => inr {| buf := buf c; cap := cap c; closed := true; sendq := [] |}
       | _ :: _ => inl send_on_closed_channel
       end.

(** ** The polling goroutine of [GetUpdatesChan] *)

(** Where the goroutine stands. *)
Inductive point : Type :=
  | AtSelect                       (* top of [for]: the [select] *)
  | InRange (rest : list Update)   (* in [for _, update := range updates] *)
  | Sending (rest : list Update)   (* parked in [ch <- update] *)
  | Returned.                      (* the function literal has returned *)

(** The goroutine together with what it shares with the application:
    the client, the channel it returned, the log and the clock.
    [received] is the application's side: what it has taken from [ch]. *)
Record poller : Type := mkPoller {
  bot : BotAPI;
  config : UpdateConfig;
  at_point : point;
  ch : chan;
  received : list Update;
  logged : list string;
  slept : list Z;
  crash : option panic
}.

Definition set_bot (b : BotAPI) (w : poller) : poller :=
  {| bot := b; config := config w; at_point := at_point w; ch := ch w;
     received := received w; logged := logged w; slept := slept w;
     crash := crash w |}.

Definition set_config (c : UpdateConfig) (w : poller) : poller :=
  {| bot := bot w; config := c; at_point := at_point w; ch := ch w;
     received := received w; logged := logged w; slept := slept w;
     crash := crash w |}.

Definition set_point (p : point) (w : poller) : poller :=
  {| bot := bot w; config := config w; at_point := p; ch := ch w;
     received := received w; logged := logged w; slept := slept w;
     crash := crash w |}.

Definition set_ch (c : chan) (w : poller) : poller :=
  {| bot := bot w; config := config w; at_point := at_point w; ch := c;
     received := received w; logged := logged w; slept := slept w;
     crash := crash w |}.

Definition set_received (l : list Update) (w : poller) : poller :=
  {| bot := bot w; config := config w; at_point := at_point w; ch := ch w;
     received := l; logged := logged w; slept := slept w;
     crash := crash w |}.

Definition log_Println (line : string) (w : poller) : poller :=
  {| bot := bot w; config := config w; at_point := at_point w; ch := ch w;
     received := received w; logged := logged w ++ [line]; slept := slept w;
     crash := crash w |}.

Definition time_Sleep (d : Z) (w : poller) : poller :=
  {| bot := bot w; config := config w; at_point := at_point w; ch := ch w;
     received := received w; logged := logged w; slept := slept w ++ [d];
     crash := crash w |}.

Definition panics (p : panic) (w : poller) : poller :=
  {| bot := bot w; config := config w; at_point := at_point w; ch := ch w;
     received := received w; logged := logged w; slept := slept w;
     crash := Some p |}.

(** [GetUpdatesChan] (bot.go, l. 460-493): the channel is made, the
    goroutine is started at the top of its loop with its own copy of
    [config]. *)
Definition GetUpdatesChan (maxchan : N) (b : BotAPI) (cfg : UpdateConfig)
  : panic + poller :=
  match make_chan maxchan (Buffer b) with
  | inl p => inl p
  | inr c =>
      inr {| bot := b; config := cfg; at_point := AtSelect; ch := c;
             received := []; logged := []; slept := []; crash := None |}
  end.

(** From the [select] (l. 467-472) to the end of the error branch
    (l. 474-481) or to the entry of the range loop.  When the shutdown
    channel is closed the goroutine runs [close(ch)] (l. 469), returns, and
    the [close(ch)] deferred at l. 465 runs. *)
Definition enter_iteration (MakeRequest : transport) (w : poller) : poller :=
  if shutdownChannel (bot w) then
    match chan_close (ch w) with
    | inl p => panics p w
    | inr c1 =>
        match chan_close c1 with
        | inl p => panics p (set_ch c1 w)
        | inr c2 => set_point Returned (set_ch c2 w)
        end
    end
  else
    match GetUpdates MakeRequest (config w) with
    | inl err =>
        time_Sleep (Second * 3)
          (log_Println "Failed to get updates, retrying in 3 seconds..."
             (log_Println (Error err) w))
    | inr updates => set_point (InRange updates) w
    end.

(** One turn of [for _, update := range updates] (l. 483-488); with nothing
    left the goroutine is back at the top of the outer loop. *)
Definition range_turn (u : Update) (rest : list Update) (w : poller) : poller :=
  if Offset (config w) <=? UpdateID u then
    let w1 := set_config (set_Offset (GoInt.add (UpdateID u) 1) (config w)) w in
    match chan_send (ch w1) u with
    | SendDone c => set_point (InRange rest) (set_ch c w1)
    | SendParked c => set_point (Sending rest) (set_ch c w1)
    | SendPanic => panics send_on_closed_channel w1
    end
  else set_point (InRange rest) w.

(** The application receives from the channel; a goroutine parked in
    [ch <- update] is woken by it. *)
Definition app_receive (w : poller) : poller :=
  match chan_recv (ch w) with
  | RecvValue u c =>
      let w1 := set_received (received w ++ [u]) (set_ch c w) in
      match at_point w with
      | Sending rest => set_point (InRange rest) w1
      | _ => w1
      end
  | RecvClosed => w
  | RecvParked => w
  end.

(** [StopReceivingUpdates] (l. 496-498): [close(bot.shutdownChannel)]. *)
Definition StopReceivingUpdates (w : poller) : poller :=
  if shutdownChannel (bot w) then panics close_of_closed_channel w
  else set_bot (set_shutdownChannel true (bot w)) w.

(** What can happen next.  [Iter] and [Tick] are the goroutine's moves, and
    [Iter] carries how the network answers at that moment; [Receive] and
    [Stop] are the application's. *)
Inductive action : Type :=
  | Iter (MakeRequest : transport)
  | Tick
  | Receive
  | Stop.

Definition step (w : poller) (a : action) : poller :=
  match crash w with
  | Some _ => w
  | None =>
      match a, at_point w with
      | Iter MakeRequest, AtSelect => enter_iteration MakeRequest w
      | Tick, InRange [] => set_point AtSelect w
      | Tick, InRange (u :: rest) => range_turn u rest w
      | Receive, _ => app_receive w
      | Stop, _ => StopReceivingUpdates w
      | _, _ => w
      end
  end.

Definition run (w : poller) (schedule : list action) : poller :=
  fold_left step schedule w.

(** Everything sent on the channel so far, in order: what the application
    took plus what is still queued. *)
Definition published (w : poller) : list Update := received w ++ buf (ch w).

(** ** The webhook *)

Record Request : Type := mkRequest {
  Method : string;
  Body : reader    (* what is not yet read from [r.Body] *)
}.

(** [json.NewDecoder(r.Body).Decode(&update)]: the update or the decoder's
    error, and what is left unread of the body.  The error is [io.EOF] for
    an empty body, [io.ErrUnexpectedEOF] for a truncated one, a
    [*json.SyntaxError] or [*json.UnmarshalTypeError] for a malformed one,
    and the error of [r.Body.Read] itself when reading fails before a value
    is complete: the decoder hands that one on as it is. *)
Definition json_decoder : Type := reader -> (error + Update) * reader.

Definition MethodPost : string := "POST".

(** [HandleUpdate] (l. 521-534); the request comes back with what the
    decoder left of its body. *)
Definition HandleUpdate (Decode : json_decoder) (r : Request)
  : (error + Update) * Request :=
  if negb (String.eqb (Method r) MethodPost) then
    (inl (errors_New "wrong HTTP method required POST"), r)
  else
    let '(res, unread) := Decode (Body r) in
    let r' := {| Method := Method r; Body := unread |} in
    match res with
    | inl err => (inl err, r')
    | inr update => (inr update, r')
    end.

(** Calls on the [http.ResponseWriter]. *)
Inductive writer_call : Type :=
  | WriteHeader (status : Z)
  | Header_Set (key value : string)
  | Write_Marshal (object : list (string * string)).

Definition StatusBadRequest : Z := 400.

Inductive handled : Type :=
  | Rejected (calls : list writer_call)
  | Forwarded (s : send_result).

(** [http.DefaultServeMux], as far as registering goes: the patterns
    registered so far.  [http.HandleFunc] panics on the empty pattern and on
    a pattern registered before; what else it refuses depends on the
    release of Go (since 1.22 a pattern that does not parse, or that
    conflicts with a registered one) and is given by [refuses]. *)
Record ServeMux : Type := mkServeMux {
  registered : list string;
  refuses : list string -> string -> bool
}.

Definition http_HandleFunc (mux : ServeMux) (pattern : string)
  : panic + ServeMux :=
  if String.eqb pattern ""
     || existsb (String.eqb pattern) (registered mux)
     || refuses mux (registered mux) pattern
  then inl (http_pattern_refused pattern)
  else inr {| registered := registered mux ++ [pattern];
              refuses := refuses mux |}.

(** [ListenForWebhook] (l. 501-518): the channel is made (l. 502), the
    handler [webhook_handler] below is registered for [pattern] (l. 504),
    the channel is returned (l. 517). *)
Definition ListenForWebhook (maxchan : N) (mux : ServeMux) (b : BotAPI)
    (pattern : string) : panic + chan * ServeMux :=
  match make_chan maxchan (Buffer b) with
  | inl p => inl p
  | inr ch =>
      match http_HandleFunc mux pattern with
      | inl p => inl p
      | inr mux' => inr (ch, mux')
      end
  end.

Definition webhook_handler (Decode : json_decoder) (c : chan) (r : Request)
  : handled :=
  match fst (HandleUpdate Decode r) with
  | inl err =>
      Rejected [ WriteHeader StatusBadRequest;
                 Header_Set "Content-Type" "application/json";
                 Write_Marshal [("error", Error err)] ]
  | inr update => Forwarded (chan_send c update)
  end.


(** ** Notions used to state the properties *)

(** The range loop run to its end, blocking apart: the cursor it leaves and
    the updates it sends, in order. *)
Fixpoint range_loop (offset : Z) (updates : list Update) : Z * list Update :=
  match updates with
  | [] => (offset, [])
  | u :: rest =>
      if offset <=? UpdateID u then
        let '(o, out) := range_loop (GoInt.add (UpdateID u) 1) rest in
        (o, u :: out)
      else range_loop offset rest
  end.

(** The updates of the current batch the goroutine has not looked at yet. *)
Definition unvisited (w : poller) : list Update :=
  match at_point w with
  | InRange rest => rest
  | Sending rest => rest
  | _ => []
  end.

(** Where the pass over the current batch is heading: the cursor and the
    published sequence once the goroutine is back at the [select]. *)
Definition outcome (w : poller) : Z * list Update :=
  let '(o, out) := range_loop (Offset (config w)) (unvisited w) in
  (o, published w ++ sendq (ch w) ++ out).

(** Reachable states keep the channel open until a crash, never reach
    [Returned], keep at most the goroutine's own value parked and never
    overfill the buffer ([wf_GetUpdatesChan] and [wf_run] below). *)
Definition wf (w : poller) : Prop :=
  (crash w = None -> closed (ch w) = false) /\
  at_point w <> Returned /\
  match at_point w with
  | Sending _ => exists u, sendq (ch w) = [u]
  | _ => sendq (ch w) = []
  end /\
  Z.of_nat (length (buf (ch w))) <= cap (ch w).

Definition is_Iter (a : action) : bool :=
  match a with Iter _ => true | _ => false end.

(** A schedule during which the goroutine does not start a new iteration. *)
Definition within_batch (schedule : list action) : Prop :=
  Forall (fun a => is_Iter a = false) schedule.

(** The application keeps receiving while the goroutine works through a
    batch: [n] rounds of one goroutine turn and one receive. *)
Definition drain (n : nat) : list action :=
  concat (replicate n [Tick; Receive]).

(** Identifiers that fit an [int]. *)
Definition well_typed (updates : list Update) : Prop :=
  Forall (fun u => GoInt.in_range (UpdateID u)) updates.

(** Identifiers that fit an [int] and leave room for the [+ 1]. *)
Definition below_max (updates : list Update) : Prop :=
  Forall (fun u => GoInt.min_int <= UpdateID u < GoInt.max_int) updates.

(** Every batch the network hands out during the action is [below_max]. *)
Definition tame (a : action) : Prop :=
  match a with
  | Iter MakeRequest =>
      forall endpoint v updates,
        MakeRequest endpoint v = inr updates -> below_max updates
  | _ => True
  end.

(** The largest identifier of a list of updates. *)
Fixpoint max_id (l : list Update) : option Z :=
  match l with
  | [] => None
  | u :: rest =>
      match max_id rest with
      | None => Some (UpdateID u)
      | Some m => Some (Z.max (UpdateID u) m)
      end
  end.

(** Two states that differ in the log and the clock only. *)
Definition same_delivery (w1 w2 : poller) : Prop :=
  bot w1 = bot w2 /\ config w1 = config w2 /\ at_point w1 = at_point w2 /\
  ch w1 = ch w2 /\ received w1 = received w2 /\ crash w1 = crash w2.

(** Identifiers strictly increasing along the list: [s1 < s2 < ... < sn]. *)
Definition ascending (updates : list Update) : Prop :=
  StronglySorted (fun a b => UpdateID a < UpdateID b) updates.

(** The cursor after a batch whose updates were all published. *)
Definition cursor_after (offset : Z) (updates : list Update) : Z :=
  match last updates with
  | Some u => GoInt.add (UpdateID u) 1
  | None => offset
  end.

(** A network that answers every request with the same list of updates. *)
Definition answers (updates : list Update) : transport :=
  fun _ _ => inr updates.

(** A network that fails every request with the same error. *)
Definition fails (err : error) : transport :=
  fun _ _ => inl err.

(** The channel once [close(c)] has gone through. *)
Definition close_flag (c : chan) : chan :=
  {| buf := buf c; cap := cap c; closed := true; sendq := [] |}.

(** Everything the goroutine has handed to the channel: what was published
    and the value it is parked with, if any. *)
Definition handed_over (w : poller) : list Update :=
  published w ++ sendq (ch w).

(** How the cursor is tied to what was handed over, [initial] being the
    offset the caller configured. *)
Definition cursor_inv (initial : Z) (w : poller) : Prop :=
  Forall (fun u => UpdateID u < Offset (config w)) (handed_over w) /\
  match max_id (handed_over w) with
  | None => Offset (config w) = initial
  | Some m => Offset (config w) = m + 1
  end /\
  below_max (unvisited w).

(** The state with the log and the clock wiped. *)
Definition erase (w : poller) : poller :=
  {| bot := bot w; config := config w; at_point := at_point w; ch := ch w;
     received := received w; logged := []; slept := [];
     crash := crash w |}.

(** The two lines the loop logs for a failed fetch. *)
Definition failure_lines (err : error) : list string :=
  [Error err; "Failed to get updates, retrying in 3 seconds..."].

(** [n] iterations in which the fetch returns nothing. *)
Definition idle (n : nat) : list action :=
  concat (replicate n [Iter (answers []); Tick]).

(** ** Sample values *)

Definition update (id : Z) : Update := {| UpdateID := id; Payload := "" |}.

Definition sample_bot (buffer : Z) : BotAPI :=
  {| Token := "110201543:AAHdqTcvCH1vGWJxfSeofSAs0K5PALDsaw";
     Buffer := buffer; Self := Some {| UserName := "sample_bot" |};
     shutdownChannel := false;
     apiEndpoint := "https://api.telegram.org/bot%s/%s" |}.

Definition sample_config (offset : Z) : UpdateConfig :=
  {| Offset := offset; Limit := 0; Timeout := 60 |}.

(** The state [GetUpdatesChan (sample_bot buffer) (sample_config offset)]
    starts the goroutine in. *)
Definition sample_poller (buffer offset : Z) : poller :=
  {| bot := sample_bot buffer; config := sample_config offset;
     at_point := AtSelect;
     ch := {| buf := []; cap := buffer; closed := false; sendq := [] |};
     received := []; logged := []; slept := []; crash := None |}.

(** A platform on which [make(chan Update, n)] passes up to [2 ^ 40]. *)
Definition sample_maxchan : N := 2 ^ 40.

(** A mux with nothing registered, of a release before Go 1.22. *)
Definition sample_mux : ServeMux :=
  {| registered := []; refuses := fun _ _ => false |}.

(** A stand-in for the JSON decoder: it knows one well-formed body, and
    fails on the others as [json.Decoder] does: with the error of the body
    when reading fails, with [io.EOF] on an empty body, with
    [io.ErrUnexpectedEOF] on an open brace, and with a syntax error on
    anything else. *)
Definition toy_decoder : json_decoder :=
  fun body =>
    let nothing := {| reader_data := ""; reader_error := reader_error body |} in
    if String.eqb (reader_data body) "update 7" then (inr (update 7), nothing)
    else
      match reader_error body with
      | Some err => (inl err, nothing)
      | None =>
          if String.eqb (reader_data body) "" then (inl io_EOF, nothing)
          else if String.eqb (reader_data body) "{"
          then (inl io_ErrUnexpectedEOF, nothing)
          else (inl (foreign_error "*json.SyntaxError" "invalid character"),
                nothing)
      end.

(** * The request builders of [bot.go]

    Every API method of [bot.go] fills a [url.Values] and hands it to
    [MakeRequest] together with an endpoint name.  What is modelled here is
    the request each method issues; the configuration records are declared
    outside [bot.go] and carry the fields the methods read. *)

Definition strconv_FormatInt (i : Z) : string := pretty i.

Definition strconv_FormatBool (b : bool) : string :=
  if b then "true" else "false".

(** What goes to [MakeRequest]: the endpoint and the parameters. *)
Record form_request : Type := mkFormRequest {
  endpoint : string;
  form : gmap string (list string)
}.

Module ChatConfig.
Record t : Type := mk {
  ChatID : Z;
  SuperGroupUsername : string
}.
End ChatConfig.

Module ChatConfigWithUser.
Record t : Type := mk {
  ChatID : Z;
  SuperGroupUsername : string;
  UserID : Z
}.
End ChatConfigWithUser.

Module ChatMemberConfig.
Record t : Type := mk {
  ChatID : Z;
  SuperGroupUsername : string;
  ChannelUsername : string;
  UserID : Z
}.
End ChatMemberConfig.

Module KickChatMemberConfig.
Record t : Type := mk {
  ChatID : Z;
  SuperGroupUsername : string;
  UserID : Z;
  UntilDate : Z
}.
End KickChatMemberConfig.

(** The permissions are [*bool]: [None] is the nil pointer.  [Member] is
    the embedded [ChatMemberConfig]. *)
Module RestrictChatMemberConfig.
Record t : Type := mk {
  Member : ChatMemberConfig.t;
  UntilDate : Z;
  CanSendMessages : option bool;
  CanSendMediaMessages : option bool;
  CanSendOtherMessages : option bool;
  CanAddWebPagePreviews : option bool
}.
End RestrictChatMemberConfig.

Module PromoteChatMemberConfig.
Record t : Type := mk {
  Member : ChatMemberConfig.t;
  CanChangeInfo : option bool;
  CanPostMessages : option bool;
  CanEditMessages : option bool;
  CanDeleteMessages : option bool;
  CanInviteUsers : option bool;
  CanRestrictMembers : option bool;
  CanPinMessages : option bool;
  CanPromoteMembers : option bool
}.
End PromoteChatMemberConfig.

Module CallbackConfig.
Record t : Type := mk {
  CallbackQueryID : string;
  Text : string;
  ShowAlert : bool;
  URL : string;
  CacheTime : Z
}.
End CallbackConfig.

(** [ShippingOptions] is kept as what [json.Marshal] makes of it: the
    encoding or an error. *)
Module ShippingConfig.
Record t : Type := mk {
  ShippingQueryID : string;
  OK : bool;
  ShippingOptions : error + string;
  ErrorMessage : string
}.
End ShippingConfig.

Module PreCheckoutConfig.
Record t : Type := mk {
  PreCheckoutQueryID : string;
  OK : bool;
  ErrorMessage : string
}.
End PreCheckoutConfig.

Module UserProfilePhotosConfig.
Record t : Type := mk {
  UserID : Z;
  Offset : Z;
  Limit : Z
}.
End UserProfilePhotosConfig.

(** The block
    [if config.SuperGroupUsername == "" { v.Add("chat_id", FormatInt(ChatID)) }
     else { v.Add("chat_id", config.SuperGroupUsername) }]
    that [KickChatMember], [LeaveChat], [GetChat], [GetChatAdministrators],
    [GetChatMembersCount], [GetChatMember] and [GetInviteLink] each spell
    out. *)
Definition Add_chat_id (ChatID : Z) (SuperGroupUsername : string)
    (v : gmap string (list string)) : gmap string (list string) :=
  if String.eqb SuperGroupUsername ""
  then Values_Add "chat_id" (strconv_FormatInt ChatID) v
  else Values_Add "chat_id" SuperGroupUsername v.

(** [if p != nil { v.Add(key, strconv.FormatBool( *p)) }] *)
Definition Add_if_set (key : string) (p : option bool)
    (v : gmap string (list string)) : gmap string (list string) :=
  match p with
  | Some b => Values_Add key (strconv_FormatBool b) v
  | None => v
  end.

(** [KickChatMember] (l. 577-592) *)
Definition KickChatMember (config : KickChatMemberConfig.t) : form_request :=
  let v : gmap string (list string) := ∅ in
  let v := Add_chat_id (KickChatMemberConfig.ChatID config)
             (KickChatMemberConfig.SuperGroupUsername config) v in
  let v := Values_Add "user_id"
             (strconv_Itoa (KickChatMemberConfig.UserID config)) v in
  let v := if negb (KickChatMemberConfig.UntilDate config =? 0)
           then Values_Add "until_date"
                  (strconv_FormatInt (KickChatMemberConfig.UntilDate config)) v
           else v in
  {| endpoint := "kickChatMember"; form := v |}.

(** [LeaveChat] (l. 595-605) *)
Definition LeaveChat (config : ChatConfig.t) : form_request :=
  let v : gmap string (list string) := ∅ in
  let v := Add_chat_id (ChatConfig.ChatID config)
             (ChatConfig.SuperGroupUsername config) v in
  {| endpoint := "leaveChat"; form := v |}.

(** [GetChat] (l. 608-620) *)
Definition GetChat (config : ChatConfig.t) : form_request :=
  let v : gmap string (list string) := ∅ in
  let v := Add_chat_id (ChatConfig.ChatID config)
             (ChatConfig.SuperGroupUsername config) v in
  {| endpoint := "getChat"; form := v |}.

(** [GetChatAdministrators] (l. 626-638) *)
Definition GetChatAdministrators (config : ChatConfig.t) : form_request :=
  let v : gmap string (list string) := ∅ in
  let v := Add_chat_id (ChatConfig.ChatID config)
             (ChatConfig.SuperGroupUsername config) v in
  {| endpoint := "getChatAdministrators"; form := v |}.

(** [GetChatMembersCount] (l. 641-653) *)
Definition GetChatMembersCount (config : ChatConfig.t) : form_request :=
  let v : gmap string (list string) := ∅ in
  let v := Add_chat_id (ChatConfig.ChatID config)
             (ChatConfig.SuperGroupUsername config) v in
  {| endpoint := "getChatMembersCount"; form := v |}.

(** [GetChatMember] (l. 656-669) *)
Definition GetChatMember (config : ChatConfigWithUser.t) : form_request :=
  let v : gmap string (list string) := ∅ in
  let v := Add_chat_id (ChatConfigWithUser.ChatID config)
             (ChatConfigWithUser.SuperGroupUsername config) v in
  let v := Values_Add "user_id"
             (strconv_Itoa (ChatConfigWithUser.UserID config)) v in
  {| endpoint := "getChatMember"; form := v |}.

(** The request of [GetInviteLink] (l. 806-824) *)
Definition GetInviteLink_request (config : ChatConfig.t) : form_request :=
  let v : gmap string (list string) := ∅ in
  let v := Add_chat_id (ChatConfig.ChatID config)
             (ChatConfig.SuperGroupUsername config) v in
  {| endpoint := "exportChatInviteLink"; form := v |}.

(** [chatIDFromChatMemberConfig] (l. 671-680) *)
Definition chatIDFromChatMemberConfig (config : ChatMemberConfig.t) : string :=
  if negb (String.eqb (ChatMemberConfig.SuperGroupUsername config) "")
  then ChatMemberConfig.SuperGroupUsername config
  else if negb (String.eqb (ChatMemberConfig.ChannelUsername config) "")
  then ChatMemberConfig.ChannelUsername config
  else strconv_FormatInt (ChatMemberConfig.ChatID config).

(** [UnbanChatMember] (l. 684-690) *)
Definition UnbanChatMember (config : ChatMemberConfig.t) : form_request :=
  let v : gmap string (list string) := ∅ in
  let v := Values_Add "chat_id" (chatIDFromChatMemberConfig config) v in
  let v := Values_Add "user_id"
             (strconv_Itoa (ChatMemberConfig.UserID config)) v in
  {| endpoint := "unbanChatMember"; form := v |}.

(** [RestrictChatMember] (l. 696-718) *)
Definition RestrictChatMember (config : RestrictChatMemberConfig.t)
  : form_request :=
  let member := RestrictChatMemberConfig.Member config in
  let v : gmap string (list string) := ∅ in
  let v := Values_Add "chat_id" (chatIDFromChatMemberConfig member) v in
  let v := Values_Add "user_id"
             (strconv_Itoa (ChatMemberConfig.UserID member)) v in
  let v := Add_if_set "can_send_messages"
             (RestrictChatMemberConfig.CanSendMessages config) v in
  let v := Add_if_set "can_send_media_messages"
             (RestrictChatMemberConfig.CanSendMediaMessages config) v in
  let v := Add_if_set "can_send_other_messages"
             (RestrictChatMemberConfig.CanSendOtherMessages config) v in
  let v := Add_if_set "can_add_web_page_previews"
             (RestrictChatMemberConfig.CanAddWebPagePreviews config) v in
  let v := if negb (RestrictChatMemberConfig.UntilDate config =? 0)
           then Values_Add "until_date"
                  (strconv_FormatInt (RestrictChatMemberConfig.UntilDate config))
                  v
           else v in
  {| endpoint := "restrictChatMember"; form := v |}.

(** [PromoteChatMember] (l. 721-752) *)
Definition PromoteChatMember (config : PromoteChatMemberConfig.t)
  : form_request :=
  let member := PromoteChatMemberConfig.Member config in
  let v : gmap string (list string) := ∅ in
  let v := Values_Add "chat_id" (chatIDFromChatMemberConfig member) v in
  let v := Values_Add "user_id"
             (strconv_Itoa (ChatMemberConfig.UserID member)) v in
  let v := Add_if_set "can_change_info"
             (PromoteChatMemberConfig.CanChangeInfo config) v in
  let v := Add_if_set "can_post_messages"
             (PromoteChatMemberConfig.CanPostMessages config) v in
  let v := Add_if_set "can_edit_messages"
             (PromoteChatMemberConfig.CanEditMessages config) v in
  let v := Add_if_set "can_delete_messages"
             (PromoteChatMemberConfig.CanDeleteMessages config) v in
  let v := Add_if_set "can_invite_users"
             (PromoteChatMemberConfig.CanInviteUsers config) v in
  let v := Add_if_set "can_restrict_members"
             (PromoteChatMemberConfig.CanRestrictMembers config) v in
  let v := Add_if_set "can_pin_messages"
             (PromoteChatMemberConfig.CanPinMessages config) v in
  let v := Add_if_set "can_promote_members"
             (PromoteChatMemberConfig.CanPromoteMembers config) v in
  {| endpoint := "promoteChatMember"; form := v |}.

(** [AnswerCallbackQuery] (l. 558-572) *)
Definition AnswerCallbackQuery (config : CallbackConfig.t) : form_request :=
  let v : gmap string (list string) := ∅ in
  let v := Values_Add "callback_query_id"
             (CallbackConfig.CallbackQueryID config) v in
  let v := if negb (String.eqb (CallbackConfig.Text config) "")
           then Values_Add "text" (CallbackConfig.Text config) v else v in
  let v := Values_Add "show_alert"
             (strconv_FormatBool (CallbackConfig.ShowAlert config)) v in
  let v := if negb (String.eqb (CallbackConfig.URL config) "")
           then Values_Add "url" (CallbackConfig.URL config) v else v in
  let v := Values_Add "cache_time"
             (strconv_Itoa (CallbackConfig.CacheTime config)) v in
  {| endpoint := "answerCallbackQuery"; form := v |}.

(** [AnswerShippingQuery] (l. 764-780) *)
Definition AnswerShippingQuery (config : ShippingConfig.t)
  : error + form_request :=
  let v : gmap string (list string) := ∅ in
  let v := Values_Add "shipping_query_id"
             (ShippingConfig.ShippingQueryID config) v in
  let v := Values_Add "ok" (strconv_FormatBool (ShippingConfig.OK config)) v in
  if ShippingConfig.OK config then
    match ShippingConfig.ShippingOptions config with
    | inl err => inl err
    | inr data =>
        let v := Values_Add "shipping_options" data v in
        inr {| endpoint := "answerShippingQuery"; form := v |}
    end
  else
    let v := Values_Add "error_message" (ShippingConfig.ErrorMessage config) v in
    inr {| endpoint := "answerShippingQuery"; form := v |}.

(** [AnswerPreCheckoutQuery] (l. 783-793) *)
Definition AnswerPreCheckoutQuery (config : PreCheckoutConfig.t)
  : form_request :=
  let v : gmap string (list string) := ∅ in
  let v := Values_Add "pre_checkout_query_id"
             (PreCheckoutConfig.PreCheckoutQueryID config) v in
  let v := Values_Add "ok" (strconv_FormatBool (PreCheckoutConfig.OK config)) v in
  let v := if negb (PreCheckoutConfig.OK config)
           then Values_Add "error_message"
                  (PreCheckoutConfig.ErrorMessage config) v
           else v in
  {| endpoint := "answerPreCheckoutQuery"; form := v |}.

(** [GetUserProfilePhotos] (l. 365-378) *)
Definition GetUserProfilePhotos (config : UserProfilePhotosConfig.t)
  : form_request :=
  let v : gmap string (list string) := ∅ in
  let v := Values_Add "user_id"
             (strconv_Itoa (UserProfilePhotosConfig.UserID config)) v in
  let v := if negb (UserProfilePhotosConfig.Offset config =? 0)
           then Values_Add "offset"
                  (strconv_Itoa (UserProfilePhotosConfig.Offset config)) v
           else v in
  let v := if negb (UserProfilePhotosConfig.Limit config =? 0)
           then Values_Add "limit"
                  (strconv_Itoa (UserProfilePhotosConfig.Limit config)) v
           else v in
  {| endpoint := "getUserProfilePhotos"; form := v |}.

(** What a [*bool] permission puts under its key: nothing for nil, the
    rendered boolean otherwise. *)
Definition sent_flag (p : option bool) : option (list string) :=
  (fun b => [strconv_FormatBool b]) <$> p.

(** The chat identifier the methods taking a [ChatConfig] send. *)
Definition chat_id_of (ChatID : Z) (SuperGroupUsername : string) : string :=
  if decide (SuperGroupUsername = "") then strconv_FormatInt ChatID
  else SuperGroupUsername.

(** Every key of the parameters holds one value. *)
Definition single_valued (v : gmap string (list string)) : Prop :=
  forall key values, v !! key = Some values -> exists x, values = [x].

(** ** Proof steps used throughout *)

(** Projections of updated states. *)
Ltac poller_simpl :=
  cbn [bot config at_point ch received logged slept crash
       set_bot set_config set_point set_ch set_received
       log_Println time_Sleep panics
       buf cap closed sendq Offset Limit Timeout set_Offset] in *.

(** Closes [Forall], [ascending] and range side conditions on explicit
    lists. *)
Ltac on_list :=
  unfold well_typed, below_max, ascending, within_batch;
  repeat first [ apply Forall_nil | apply SSorted_nil | apply SSorted_cons
               | apply Forall_cons; split ];
  unfold GoInt.in_range, GoInt.min_int, GoInt.max_int; simpl;
  first [ lia | done ].

(** * Mentions *)

(** [Message] is declared outside [bot.go]; [IsMessageToMe] reads [Text]. *)
Record Message : Type := mkMessage {
  Text : string
}.

(** [strings.Contains]: [substr] occurs somewhere in [s]. *)
Fixpoint strings_Contains (s substr : string) : bool :=
  String.prefix substr s ||
  match s with
  | EmptyString => false
  | String _ rest => strings_Contains rest substr
  end.

(** [IsMessageToMe] (l. 282-284).  [message] and [bot.Self] are pointers:
    following a nil one is a runtime panic, rendered as [None]. *)
Definition IsMessageToMe (b : BotAPI) (message : option Message) : option bool :=
  match message, Self b with
  | Some m, Some self =>
      Some (strings_Contains (Text m) ("@" +:+ UserName self))
  | _, _ => None
  end.

(** * Requests and answers

    [MakeRequest] and [UploadFile] talk to the standard library, to the
    multipart streamer, to the file system and to the network.  What those
    do is not decided by [bot.go]; it is gathered in the record [outside],
    and the functions are modelled for an arbitrary one. *)

(** [ResponseParameters] is declared outside [bot.go], which copies it and
    uses its zero value only. *)
Record ResponseParameters : Type := mkResponseParameters {
  raw_parameters : string
}.

Definition zero_ResponseParameters : ResponseParameters :=
  {| raw_parameters := "" |}.

Module APIResponse.
Record t : Type := mk {
  Ok : bool;
  Result : string;
  ErrorCode : Z;
  Description : string;
  Parameters : option ResponseParameters
}.
End APIResponse.

(** What a call reports: an ordinary [error], or the struct [Error] of the
    package with the code and description of a refused call. *)
Inductive failure : Type :=
  | plain (err : error)
  | Error_struct (Code : Z) (Message : string)
      (parameters : ResponseParameters).

Definition ioutil_ReadAll (r : reader) : string * option error :=
  (reader_data r, reader_error r).

(** The [file] argument of [UploadFile], by dynamic type. *)
Inductive file_arg : Type :=
  | file_path (path : string)
  | file_FileBytes (Name : string) (Bytes : string)
  | file_FileReader (Name : string) (Reader : reader) (Size : Z)
  | file_URL (rendered : string)     (* a [url.URL], by its [String()] *)
  | file_other.                      (* any other type *)

(** Where the bytes of an uploaded part come from. *)
Inductive source : Type :=
  | from_file (path : string)
  | from_buffer (bytes : string)
  | from_reader (r : reader).

(** What [ms.WriteReader(key, filename, size, reader)] was called with. *)
Record file_part : Type := mkFilePart {
  part_key : string;
  part_filename : string;
  part_size : Z;
  part_source : source
}.

(** The multipart streamer after [WriteFields] and [WriteReader]. *)
Record multipart : Type := mkMultipart {
  fields : gmap string string;
  part : option file_part
}.

Inductive request_body : Type :=
  | form_body (params : gmap string (list string))   (* [params.Encode()] *)
  | multipart_body (ms : multipart).

(** The request handed to [bot.Client.Do]; [request_content_type] is the
    header [bot.go] sets itself, the multipart one being left to
    [ms.SetupRequest]. *)
Record http_request : Type := mkHttpRequest {
  request_method : string;
  request_url : string;
  request_content_type : option string;
  request_body_of : request_body
}.

Record outside : Type := mkOutside {
  fmt_Sprintf : string -> string -> string -> string;
  http_NewRequest : string -> string -> option error;
  Client_Do : http_request -> error + reader;
  json_Decode_APIResponse : reader -> APIResponse.t * option error;
  json_Unmarshal_APIResponse : string -> APIResponse.t * option error;
  json_Unmarshal_Message : string -> Message * option error;
  ms_WriteFields : gmap string string -> option error;
  ms_WriteReader : file_part -> option error;
  os_Open : string -> option error;
  os_Stat : string -> error + Z;
  ErrBadFileType : string
}.

(** The error a refused call is turned into (l. 107-116 and l. 242-247). *)
Definition refused (resp : APIResponse.t) : failure :=
  let parameters :=
    match APIResponse.Parameters resp with
    | Some p => p
    | None => zero_ResponseParameters
    end in
  Error_struct (APIResponse.ErrorCode resp) (APIResponse.Description resp)
    parameters.

(** [MakeRequest] (l. 83-123).  [result] is the decoder of the caller's
    target, [None] for a nil [result]; the third component is what ends up
    in the target, [None] when it is not touched.  A nil [params] encodes
    like the empty one. *)
Definition MakeRequest {R : Type} (o : outside) (b : BotAPI)
    (endpoint : string) (params : gmap string (list string))
    (result : option (string -> R * option error))
  : option APIResponse.t * option failure * option R :=
  let method := fmt_Sprintf o (apiEndpoint b) (Token b) endpoint in
  match http_NewRequest o "POST" method with
  | Some err => (None, Some (plain err), None)
  | None =>
      let req := {| request_method := "POST"; request_url := method;
                    request_content_type :=
                      Some "application/x-www-form-urlencoded";
                    request_body_of := form_body params |} in
      match Client_Do o req with
      | inl err => (None, Some (plain err), None)
      | inr body =>
          let '(apiResp, err) := json_Decode_APIResponse o body in
          match err with
          | Some err => (Some apiResp, Some (plain err), None)
          | None =>
              if negb (APIResponse.Ok apiResp) then
                (Some apiResp, Some (refused apiResp), None)
              else
                match result with
                | Some unmarshal =>
                    let '(value, err) :=
                      unmarshal (APIResponse.Result apiResp) in
                    (Some apiResp, plain <$> err, Some value)
                | None => (Some apiResp, None, None)
                end
          end
      end
  end.

(** The request [MakeRequest] hands to [bot.Client.Do] (l. 88-96). *)
Definition form_post (o : outside) (b : BotAPI) (endpoint : string)
    (params : gmap string (list string)) : http_request :=
  {| request_method := "POST";
     request_url := fmt_Sprintf o (apiEndpoint b) (Token b) endpoint;
     request_content_type := Some "application/x-www-form-urlencoded";
     request_body_of := form_body params |}.

(** The request [UploadFile] hands to [bot.Client.Do] (l. 217-226). *)
Definition multipart_post (o : outside) (b : BotAPI) (endpoint : string)
    (ms : multipart) : http_request :=
  {| request_method := "POST";
     request_url := fmt_Sprintf o (apiEndpoint b) (Token b) endpoint;
     request_content_type := None;
     request_body_of := multipart_body ms |}.

(** The first half of [UploadFile] (l. 153-213): the type switch that fills
    the streamer.  The second component is [params] as the call leaves it. *)
Definition UploadFile_fill (o : outside) (params : gmap string string)
    (fieldname : string) (file : file_arg)
  : error + multipart * gmap string string :=
  let write_part (p : file_part) : error + multipart * gmap string string :=
    match ms_WriteReader o p with
    | Some err => inl err
    | None => inr ({| fields := params; part := Some p |}, params)
    end in
  match file with
  | file_path f =>
      match ms_WriteFields o params with
      | Some err => inl err
      | None =>
          match os_Open o f with
          | Some err => inl err
          | None =>
              match os_Stat o f with
              | inl err => inl err
              | inr size =>
                  write_part {| part_key := fieldname; part_filename := f;
                                part_size := size;
                                part_source := from_file f |}
              end
          end
      end
  | file_FileBytes name bytes =>
      match ms_WriteFields o params with
      | Some err => inl err
      | None =>
          write_part {| part_key := fieldname; part_filename := name;
                        part_size := Z.of_nat (String.length bytes);
                        part_source := from_buffer bytes |}
      end
  | file_FileReader name r size =>
      match ms_WriteFields o params with
      | Some err => inl err
      | None =>
          if negb (size =? -1) then
            write_part {| part_key := fieldname; part_filename := name;
                          part_size := size; part_source := from_reader r |}
          else
            let '(data, err) := ioutil_ReadAll r in
            match err with
            | Some err => inl err
            | None =>
                write_part {| part_key := fieldname; part_filename := name;
                              part_size := Z.of_nat (String.length data);
                              part_source := from_buffer data |}
            end
      end
  | file_URL rendered =>
      let params := <[fieldname := rendered]> params in
      match ms_WriteFields o params with
      | Some err => inl err
      | None => inr ({| fields := params; part := None |}, params)
      end
  | file_other => inl (errors_New (ErrBadFileType o))
  end.

(** [UploadFile] (l. 147-253).  For a [url.URL] no reader is written to the
    streamer ([part] is [None]), and [ms.SetupRequest] builds the body
    around that missing reader: a client that reads the body to its end
    runs into a nil dereference.  [Client_Do] is the answer of a client
    that returns. *)
Definition UploadFile (o : outside) (b : BotAPI) (endpoint : string)
    (params : gmap string string) (fieldname : string) (file : file_arg)
  : option APIResponse.t * option failure :=
  match UploadFile_fill o params fieldname file with
  | inl err => (None, Some (plain err))
  | inr (ms, _) =>
      let method := fmt_Sprintf o (apiEndpoint b) (Token b) endpoint in
      match http_NewRequest o "POST" method with
      | Some err => (None, Some (plain err))
      | None =>
          let req := {| request_method := "POST"; request_url := method;
                        request_content_type := None;
                        request_body_of := multipart_body ms |} in
          match Client_Do o req with
          | inl err => (None, Some (plain err))
          | inr body =>
              let '(bytes, err) := ioutil_ReadAll body in
              match err with
              | Some err => (None, Some (plain err))
              | None =>
                  let '(apiResp, err) := json_Unmarshal_APIResponse o bytes in
                  match err with
                  | Some err => (None, Some (plain err))
                  | None =>
                      if negb (APIResponse.Ok apiResp)
                      then (Some apiResp, Some (refused apiResp))
                      else (Some apiResp, None)
                  end
              end
          end
      end
  end.

(** The interfaces [Chattable] and [Fileable] are declared outside
    [bot.go]; a value is given by what its methods return.  [values] and
    [params] return a map together with an error. *)
Module Chattable.
Record t : Type := mk {
  values : gmap string (list string) * option error;
  method : string
}.
End Chattable.

Module Fileable.
Record t : Type := mk {
  chattable : Chattable.t;
  params : gmap string string * option error;
  name : string;
  getFile : file_arg;
  useExistingFile : bool
}.
End Fileable.

Definition zero_Message : Message := {| Text := "" |}.

(** [makeMessageRequest] (l. 133-137) *)
Definition makeMessageRequest (o : outside) (b : BotAPI) (endpoint : string)
    (params : gmap string (list string)) : Message * option failure :=
  let '(_, err, message) :=
    MakeRequest o b endpoint params (Some (json_Unmarshal_Message o)) in
  (default zero_Message message, err).

(** [sendChattable] (l. 346-359) *)
Definition sendChattable (o : outside) (b : BotAPI) (config : Chattable.t)
  : option Message * option failure :=
  let '(v, err) := Chattable.values config in
  match err with
  | Some err => (None, Some (plain err))
  | None =>
      let '(message, err) :=
        makeMessageRequest o b (Chattable.method config) v in
      match err with
      | Some err => (None, Some err)
      | None => (Some message, None)
      end
  end.

(** [sendExisting] (l. 298-311) *)
Definition sendExisting (o : outside) (b : BotAPI) (method : string)
    (config : Fileable.t) : option Message * option failure :=
  let '(v, err) := Chattable.values (Fileable.chattable config) in
  match err with
  | Some err => (None, Some (plain err))
  | None =>
      let '(message, err) := makeMessageRequest o b method v in
      match err with
      | Some err => (None, Some err)
      | None => (Some message, None)
      end
  end.

(** [uploadAndSend] (l. 314-333) *)
Definition uploadAndSend (o : outside) (b : BotAPI) (method : string)
    (config : Fileable.t) : option Message * option failure :=
  let '(params, err) := Fileable.params config in
  match err with
  | Some err => (None, Some (plain err))
  | None =>
      let file := Fileable.getFile config in
      match UploadFile o b method params (Fileable.name config) file with
      | (_, Some err) => (None, Some err)
      | (None, None) => (None, None)
      | (Some resp, None) =>
          let '(message, err) :=
            json_Unmarshal_Message o (APIResponse.Result resp) in
          match err with
          | Some err => (None, Some (plain err))
          | None => (Some message, None)
          end
      end
  end.

(** [sendFile] (l. 337-343) *)
Definition sendFile (o : outside) (b : BotAPI) (config : Fileable.t)
  : option Message * option failure :=
  if Fileable.useExistingFile config
  then sendExisting o b (Chattable.method (Fileable.chattable config)) config
  else uploadAndSend o b (Chattable.method (Fileable.chattable config)) config.

(** [Send] (l. 289-295): the type assertion [c.(Fileable)] is the choice
    between the two summands. *)
Definition Send (o : outside) (b : BotAPI) (c : Chattable.t + Fileable.t)
  : option Message * option failure :=
  match c with
  | inl config => sendChattable o b config
  | inr fileable => sendFile o b fileable
  end.

(** [DeleteMessage], [PinChatMessage], [UnpinChatMessage], [SetChatTitle],
    [SetChatDescription] and [DeleteChatPhoto] (l. 796-886) share one body:
    the values of the configuration, or its error, then the request. *)
Definition request_of_config (o : outside) (b : BotAPI) (config : Chattable.t)
  : option APIResponse.t * option failure :=
  let '(v, err) := Chattable.values config in
  match err with
  | Some err => (None, Some (plain err))
  | None =>
      let '(resp, err, _) :=
        MakeRequest (R := unit) o b (Chattable.method config) v None in
      (resp, err)
  end.

(** [GetGameHighScores] (l. 755-761): [v, _ := config.values()].
    [unmarshal] decodes the result into the slice of high scores. *)
Definition GetGameHighScores {S : Type} (o : outside) (b : BotAPI)
    (config : Chattable.t) (unmarshal : string -> list S * option error)
  : list S * option failure :=
  let '(v, _) := Chattable.values config in
  let '(_, err, highScores) :=
    MakeRequest o b (Chattable.method config) v (Some unmarshal) in
  (default [] highScores, err).

(** [WebhookConfig]: [URL] by its [String()], [Certificate] nil or a file. *)
Module WebhookConfig.
Record t : Type := mk {
  URL : string;
  Certificate : option file_arg;
  MaxConnections : Z
}.
End WebhookConfig.

(** The parameters of [SetWebhook] without a certificate (l. 429-434). *)
Definition SetWebhook_values (config : WebhookConfig.t)
  : gmap string (list string) :=
  let v : gmap string (list string) := ∅ in
  let v := Values_Add "url" (WebhookConfig.URL config) v in
  let v := if negb (WebhookConfig.MaxConnections config =? 0)
           then Values_Add "max_connections"
                  (strconv_Itoa (WebhookConfig.MaxConnections config)) v
           else v in
  v.

(** The parameters of [SetWebhook] with a certificate (l. 439-443). *)
Definition SetWebhook_params (config : WebhookConfig.t) : gmap string string :=
  let params : gmap string string := ∅ in
  let params := <["url" := WebhookConfig.URL config]> params in
  let params :=
    if negb (WebhookConfig.MaxConnections config =? 0)
    then <["max_connections" :=
             strconv_Itoa (WebhookConfig.MaxConnections config)]> params
    else params in
  params.

(** [SetWebhook] (l. 427-450) *)
Definition SetWebhook (o : outside) (b : BotAPI) (config : WebhookConfig.t)
  : option APIResponse.t * option failure :=
  match WebhookConfig.Certificate config with
  | None =>
      let '(resp, err, _) :=
        MakeRequest (R := unit) o b "setWebhook" (SetWebhook_values config)
          None in
      (resp, err)
  | Some certificate =>
      match UploadFile o b "setWebhook" (SetWebhook_params config)
              "certificate" certificate with
      | (_, Some err) => (None, Some err)
      | (resp, None) => (resp, None)
      end
  end.

(** Two environments with the same formatting, the same network and the
    same decoding of streamed answers. *)
Definition same_network (o o' : outside) : Prop :=
  (forall format token endpoint,
     fmt_Sprintf o format token endpoint = fmt_Sprintf o' format token endpoint) /\
  (forall method url, http_NewRequest o method url = http_NewRequest o' method url) /\
  (forall req, Client_Do o req = Client_Do o' req) /\
  (forall body, json_Decode_APIResponse o body = json_Decode_APIResponse o' body).

(** An environment in which every request goes through and is answered by
    [answer], and every file can be read. *)
Definition answering (answer : APIResponse.t) : outside :=
  {| fmt_Sprintf := fun format token endpoint =>
       format +:+ token +:+ "/" +:+ endpoint;
     http_NewRequest := fun _ _ => None;
     Client_Do := fun _ => inr {| reader_data := "{}"; reader_error := None |};
     json_Decode_APIResponse := fun _ => (answer, None);
     json_Unmarshal_APIResponse := fun _ => (answer, None);
     json_Unmarshal_Message := fun raw => ({| Text := raw |}, None);
     ms_WriteFields := fun _ => None;
     ms_WriteReader := fun _ => None;
     os_Open := fun _ => None;
     os_Stat := fun _ => inr 0;
     ErrBadFileType := "bad file type" |}.

(** The same, with a file system that knows no file and a streamer that
    refuses everything. *)
Definition answering_without_files (answer : APIResponse.t) : outside :=
  {| fmt_Sprintf := fmt_Sprintf (answering answer);
     http_NewRequest := http_NewRequest (answering answer);
     Client_Do := Client_Do (answering answer);
     json_Decode_APIResponse := json_Decode_APIResponse (answering answer);
     json_Unmarshal_APIResponse := fun _ => (answer, None);
     json_Unmarshal_Message := fun raw => ({| Text := raw |}, None);
     ms_WriteFields := fun _ => Some (foreign_error "multipart" "closed");
     ms_WriteReader := fun _ => Some (foreign_error "multipart" "closed");
     os_Open := fun _ => Some (foreign_error "os" "no such file");
     os_Stat := fun _ => inl (foreign_error "os" "no such file");
     ErrBadFileType := "bad file type" |}.

Definition accepted (raw : string) : APIResponse.t :=
  APIResponse.mk true raw 0 "" None.

Definition refusal (code : Z) (description : string) : APIResponse.t :=
  APIResponse.mk false "" code description None.

(** * Further notions for the polling loop *)

(** What the fetch of an [Iter] brings in, if the fetch takes place. *)
Definition offer (w : poller) (a : action) : list Update :=
  match a, crash w, at_point w, shutdownChannel (bot w) with
  | Iter MakeRequest, None, AtSelect, false =>
      match GetUpdates MakeRequest (config w) with
      | inr updates => updates
      | inl _ => []
      end
  | _, _, _, _ => []
  end.

(** The updates the network hands to the loop along a schedule, batch after
    batch. *)
Fixpoint offered (w : poller) (schedule : list action) : list Update :=
  match schedule with
  | [] => []
  | a :: rest => offer w a ++ offered (step w a) rest
  end.

(** The side condition of a lookup under another key. *)
Ltac keys_differ := first [ discriminate | congruence ].

(** Case distinction of a key against the keys a builder uses. *)
Ltac split_key key known :=
  lazymatch known with
  | nil => idtac
  | cons ?k ?rest =>
      destruct (decide (key = k)) as [->|?]; [|split_key key rest]
  end.

(** * Properties *)

(** ** Arithmetic of [int] *)

Lemma wrap_in_range z : GoInt.in_range (GoInt.wrap z).
Proof.
  unfold GoInt.in_range, GoInt.wrap, GoInt.min_int, GoInt.max_int, GoInt.int_bits.
  pose proof (Z.mod_pos_bound (z + 2 ^ (64 - 1)) (2 ^ 64) ltac:(lia)).
  change (2 ^ 64) with 18446744073709551616 in *.
  change (2 ^ (64 - 1)) with 9223372036854775808 in *.
  lia.
Qed.

Lemma wrap_small z : GoInt.in_range z -> GoInt.wrap z = z.
Proof.
  unfold GoInt.in_range, GoInt.wrap, GoInt.min_int, GoInt.max_int, GoInt.int_bits.
  change (2 ^ 64) with 18446744073709551616 in *.
  change (2 ^ (64 - 1)) with 9223372036854775808 in *.
  intros H. rewrite Z.mod_small by lia. lia.
Qed.

Lemma add_1_below_max z :
  GoInt.min_int <= z -> z < GoInt.max_int -> GoInt.add z 1 = z + 1.
Proof. intros Hlo Hhi. apply wrap_small. unfold GoInt.in_range. lia. Qed.

Lemma add_1_at_max : GoInt.add GoInt.max_int 1 = GoInt.min_int.
Proof. reflexivity. Qed.

(** ** The request of [GetUpdates] *)

Lemma Values_Add_fresh key value (v : gmap string (list string)) :
  v !! key = None -> Values_Add key value v !! key = Some [value].
Proof. intros H. unfold Values_Add. rewrite H. simpl. by rewrite lookup_insert_eq. Qed.

Lemma Values_Add_other key key' value (v : gmap string (list string)) :
  key <> key' -> Values_Add key value v !! key' = v !! key'.
Proof. intros H. unfold Values_Add. by rewrite lookup_insert_ne. Qed.

Lemma GetUpdates_values_offset config :
  GetUpdates_values config !! "offset" =
    if Offset config =? 0 then None else Some [strconv_Itoa (Offset config)].
Proof.
  unfold GetUpdates_values.
  destruct (Offset config =? 0), (0 <? Limit config), (0 <? Timeout config);
    simpl; rewrite ?Values_Add_other by done;
    first [ by apply Values_Add_fresh | done ].
Qed.

Lemma GetUpdates_values_limit config :
  GetUpdates_values config !! "limit" =
    if 0 <? Limit config then Some [strconv_Itoa (Limit config)] else None.
Proof.
  unfold GetUpdates_values.
  destruct (Offset config =? 0), (0 <? Limit config), (0 <? Timeout config);
    simpl; rewrite ?(Values_Add_other "timeout") by done;
    first [ by (apply Values_Add_fresh; rewrite ?Values_Add_other by done)
          | by rewrite ?Values_Add_other by done ].
Qed.

Lemma GetUpdates_values_timeout config :
  GetUpdates_values config !! "timeout" =
    if 0 <? Timeout config then Some [strconv_Itoa (Timeout config)] else None.
Proof.
  unfold GetUpdates_values.
  destruct (Offset config =? 0), (0 <? Limit config), (0 <? Timeout config);
    simpl;
    first [ by (apply Values_Add_fresh; rewrite ?Values_Add_other by done)
          | by rewrite ?Values_Add_other by done ].
Qed.

Lemma GetUpdates_values_rest config key :
  key <> "offset" -> key <> "limit" -> key <> "timeout" ->
  GetUpdates_values config !! key = None.
Proof.
  intros H1 H2 H3. unfold GetUpdates_values.
  destruct (Offset config =? 0), (0 <? Limit config), (0 <? Timeout config);
    simpl; by rewrite ?Values_Add_other by done.
Qed.

(** A negative offset is sent, a zero limit and a negative timeout are not. *)
Example GetUpdates_values_negative_offset :
  GetUpdates_values {| Offset := -1; Limit := 0; Timeout := -3 |} =
    {[ "offset" := ["-1"] ]}.
Proof. by vm_compute. Qed.

Example GetUpdates_values_all_fields :
  let v := GetUpdates_values {| Offset := 8; Limit := 100; Timeout := 60 |} in
  v !! "offset" = Some ["8"] /\ v !! "limit" = Some ["100"] /\
  v !! "timeout" = Some ["60"].
Proof. by vm_compute. Qed.

(** C10. [GetUpdates] sends [offset] exactly when the configured offset is
    not zero (negative offsets included), and sends [limit] and [timeout]
    exactly when they are strictly positive; a field that is not sent is
    absent from the parameters, and nothing else is sent. *)
Theorem GetUpdates_fields (MakeRequest : transport) (config : UpdateConfig) :
  let v := GetUpdates_values config in
  GetUpdates MakeRequest config = MakeRequest "getUpdates" v /\
  v !! "offset" =
    (if decide (Offset config = 0) then None
     else Some [strconv_Itoa (Offset config)]) /\
  v !! "limit" =
    (if decide (0 < Limit config) then Some [strconv_Itoa (Limit config)]
     else None) /\
  v !! "timeout" =
    (if decide (0 < Timeout config) then Some [strconv_Itoa (Timeout config)]
     else None) /\
  dom v ⊆ ({["offset"; "limit"; "timeout"]} : gset string).
Proof.
  intros v. subst v. split; [reflexivity|].
  rewrite GetUpdates_values_offset, GetUpdates_values_limit,
    GetUpdates_values_timeout.
  repeat split.
  - destruct (Z.eqb_spec (Offset config) 0); case_decide; done.
  - destruct (Z.ltb_spec 0 (Limit config)); case_decide; done || lia.
  - destruct (Z.ltb_spec 0 (Timeout config)); case_decide; done || lia.
  - intros key Hkey. apply elem_of_dom in Hkey as [x Hx].
    destruct (decide (key = "offset")) as [->|]; [set_solver|].
    destruct (decide (key = "limit")) as [->|]; [set_solver|].
    destruct (decide (key = "timeout")) as [->|]; [set_solver|].
    by rewrite GetUpdates_values_rest in Hx.
Qed.

(** ** Reachable states of the polling goroutine *)

Lemma make_chan_inr maxchan size c :
  make_chan maxchan size = inr c ->
  0 <= size <= Z.of_N maxchan /\
  c = {| buf := []; cap := size; closed := false; sendq := [] |}.
Proof.
  unfold make_chan.
  destruct (Z.ltb_spec size 0); [done|].
  destruct (Z.ltb_spec (Z.of_N maxchan) size); [done|].
  intros [= <-]. split; [lia|done].
Qed.

Lemma make_chan_fits maxchan size :
  0 <= size <= Z.of_N maxchan ->
  make_chan maxchan size =
    inr {| buf := []; cap := size; closed := false; sendq := [] |}.
Proof.
  intros H. unfold make_chan.
  destruct (Z.ltb_spec size 0); [lia|].
  by destruct (Z.ltb_spec (Z.of_N maxchan) size); [lia|].
Qed.

Lemma make_chan_out_of_range maxchan size :
  size < 0 \/ Z.of_N maxchan < size ->
  make_chan maxchan size = inl makechan_size_out_of_range.
Proof.
  intros H. unfold make_chan.
  destruct (Z.ltb_spec size 0); [done|].
  by destruct (Z.ltb_spec (Z.of_N maxchan) size); [|lia].
Qed.

Lemma GetUpdatesChan_inr maxchan b cfg w :
  GetUpdatesChan maxchan b cfg = inr w ->
  0 <= Buffer b <= Z.of_N maxchan /\
  w = {| bot := b; config := cfg; at_point := AtSelect;
         ch := {| buf := []; cap := Buffer b; closed := false; sendq := [] |};
         received := []; logged := []; slept := []; crash := None |}.
Proof.
  unfold GetUpdatesChan.
  destruct (make_chan maxchan (Buffer b)) as [p|c] eqn:Hmake; [done|].
  apply make_chan_inr in Hmake as [Hrange ->]. by intros [= <-].
Qed.

Lemma wf_GetUpdatesChan maxchan b cfg w :
  GetUpdatesChan maxchan b cfg = inr w -> wf w.
Proof.
  intros H. apply GetUpdatesChan_inr in H as [Hrange ->].
  unfold wf. poller_simpl. repeat split; try done; simpl; lia.
Qed.

Lemma wf_enter_iteration MakeRequest w :
  crash w = None -> at_point w = AtSelect -> wf w ->
  wf (enter_iteration MakeRequest w).
Proof.
  intros Hc Hp (Hopen & Hret & Hq & Hlen). rewrite Hp in Hq.
  unfold enter_iteration. destruct (shutdownChannel (bot w)).
  - unfold chan_close. rewrite (Hopen Hc), Hq. poller_simpl.
    unfold wf. poller_simpl. rewrite Hp. repeat split; done.
  - destruct (GetUpdates MakeRequest (config w)) as [err|updates];
      unfold wf; poller_simpl; [rewrite Hp|]; repeat split; done.
Qed.

Lemma wf_range_turn u rest w :
  crash w = None -> at_point w = InRange (u :: rest) -> wf w ->
  wf (range_turn u rest w).
Proof.
  intros Hc Hp (Hopen & Hret & Hq & Hlen). rewrite Hp in Hq.
  unfold range_turn. destruct (Offset (config w) <=? UpdateID u).
  - unfold chan_send. poller_simpl. rewrite (Hopen Hc).
    destruct (Z.ltb_spec (Z.of_nat (length (buf (ch w)))) (cap (ch w)));
      unfold wf; poller_simpl; repeat split; try done.
    + rewrite length_app. simpl. lia.
    + rewrite Hq. by exists u.
  - unfold wf. poller_simpl. repeat split; done.
Qed.

Lemma wf_app_receive w : wf w -> wf (app_receive w).
Proof.
  intros Hwf. pose proof Hwf as (Hopen & Hret & Hq & Hlen).
  unfold app_receive, chan_recv.
  destruct (buf (ch w)) as [|x b] eqn:Hb, (sendq (ch w)) as [|s q] eqn:Hs.
  - by destruct (closed (ch w)).
  - destruct (at_point w) eqn:Hp; try done. destruct Hq as [u [= -> ->]].
    unfold wf. poller_simpl. repeat split; try done; simpl in *; lia.
  - destruct (at_point w) eqn:Hp; try (by destruct Hq);
      unfold wf; poller_simpl; rewrite ?Hp; repeat split; try done;
      simpl in *; lia.
  - destruct (at_point w) eqn:Hp; try done. destruct Hq as [u [= -> ->]].
    unfold wf. poller_simpl. repeat split; try done.
    rewrite length_app. simpl in *. lia.
Qed.

Lemma wf_StopReceivingUpdates w : wf w -> wf (StopReceivingUpdates w).
Proof.
  intros (Hopen & Hret & Hq & Hlen). unfold StopReceivingUpdates.
  destruct (shutdownChannel (bot w)); unfold wf; poller_simpl; repeat split; done.
Qed.

Lemma wf_step w a : wf w -> wf (step w a).
Proof.
  intros Hwf. unfold step. destruct (crash w) eqn:Hc; [done|].
  destruct a as [MakeRequest| | |].
  - destruct (at_point w) eqn:Hp; try done. by apply wf_enter_iteration.
  - destruct (at_point w) as [|[|u rest]| |] eqn:Hp; try done.
    + destruct Hwf as (Hopen & Hret & Hq & Hlen). rewrite Hp in Hq.
      unfold wf. poller_simpl. repeat split; done.
    + by apply wf_range_turn.
  - destruct (at_point w); by apply wf_app_receive.
  - destruct (at_point w); by apply wf_StopReceivingUpdates.
Qed.

Lemma run_app w s1 s2 : run w (s1 ++ s2) = run (run w s1) s2.
Proof. apply fold_left_app. Qed.

Lemma run_cons w a s : run w (a :: s) = run (step w a) s.
Proof. reflexivity. Qed.

Lemma wf_run w schedule : wf w -> wf (run w schedule).
Proof.
  revert w. induction schedule as [|a s IH]; intros w Hwf; [done|].
  rewrite run_cons. apply IH. by apply wf_step.
Qed.

Lemma step_crashed w a : crash w <> None -> step w a = w.
Proof. unfold step. by destruct (crash w). Qed.

Lemma run_crashed w schedule : crash w <> None -> run w schedule = w.
Proof.
  intros Hc. induction schedule as [|a s IH]; [done|].
  by rewrite run_cons, step_crashed.
Qed.

Lemma step_Receive w : crash w = None -> step w Receive = app_receive w.
Proof. intros Hc. unfold step. rewrite Hc. by destruct (at_point w). Qed.

Lemma step_Stop w : crash w = None -> step w Stop = StopReceivingUpdates w.
Proof. intros Hc. unfold step. rewrite Hc. by destruct (at_point w). Qed.

(** ** The pass over one batch *)

Lemma outcome_AtSelect w :
  wf w -> at_point w = AtSelect ->
  outcome w = (Offset (config w), published w).
Proof.
  intros (_ & _ & Hq & _) Hp. rewrite Hp in Hq.
  unfold outcome, unvisited. rewrite Hp, Hq. simpl. by rewrite app_nil_r.
Qed.

Lemma outcome_range_turn u rest w :
  crash w = None -> at_point w = InRange (u :: rest) -> wf w ->
  outcome (range_turn u rest w) = outcome w.
Proof.
  intros Hc Hp (Hopen & _ & Hq & _). rewrite Hp in Hq.
  unfold outcome at 2. unfold unvisited. rewrite Hp, Hq. simpl.
  unfold range_turn. destruct (Offset (config w) <=? UpdateID u).
  - unfold chan_send. poller_simpl. rewrite (Hopen Hc).
    destruct (Z.of_nat (length (buf (ch w))) <? cap (ch w));
      unfold outcome, unvisited, published; poller_simpl; rewrite Hq;
      destruct (range_loop (GoInt.add (UpdateID u) 1) rest) as [o out];
      by rewrite <- ?app_assoc.
  - unfold outcome, unvisited, published. poller_simpl. by rewrite Hq.
Qed.

Lemma outcome_app_receive w : wf w -> outcome (app_receive w) = outcome w.
Proof.
  intros (_ & _ & Hq & _). unfold app_receive, chan_recv.
  destruct (buf (ch w)) as [|x b] eqn:Hb, (sendq (ch w)) as [|s q] eqn:Hs.
  - by destruct (closed (ch w)).
  - destruct (at_point w) eqn:Hp; try done. destruct Hq as [u [= -> ->]].
    unfold outcome, unvisited, published. poller_simpl.
    rewrite Hp, Hb, Hs. simpl.
    destruct (range_loop (Offset (config w)) rest) as [o out].
    by rewrite <- !app_assoc.
  - destruct (at_point w) eqn:Hp; try (by destruct Hq);
      unfold outcome, unvisited, published; poller_simpl;
      rewrite ?Hp, Hb, Hs; simpl;
      try destruct (range_loop (Offset (config w)) rest) as [o out];
      by rewrite <- !app_assoc.
  - destruct (at_point w) eqn:Hp; try done. destruct Hq as [u [= -> ->]].
    unfold outcome, unvisited, published. poller_simpl.
    rewrite Hp, Hb, Hs. simpl.
    destruct (range_loop (Offset (config w)) rest) as [o out].
    by rewrite <- !app_assoc.
Qed.

Lemma outcome_StopReceivingUpdates w :
  outcome (StopReceivingUpdates w) = outcome w.
Proof. unfold StopReceivingUpdates. by destruct (shutdownChannel (bot w)). Qed.

Lemma outcome_step w a :
  wf w -> is_Iter a = false -> outcome (step w a) = outcome w.
Proof.
  intros Hwf Ha. unfold step. destruct (crash w) eqn:Hc; [done|].
  destruct a as [MakeRequest| | |]; [done| | |].
  - destruct (at_point w) as [|[|u rest]| |] eqn:Hp; try done.
    + destruct Hwf as (_ & _ & Hq & _). rewrite Hp in Hq.
      unfold outcome, unvisited, published. poller_simpl. by rewrite Hp.
    + by apply outcome_range_turn.
  - destruct (at_point w); by apply outcome_app_receive.
  - destruct (at_point w); by apply outcome_StopReceivingUpdates.
Qed.

Lemma outcome_run w schedule :
  wf w -> within_batch schedule -> outcome (run w schedule) = outcome w.
Proof.
  revert w. induction schedule as [|a s IH]; intros w Hwf Hs; [done|].
  apply Forall_cons in Hs as [Ha Hs]. rewrite run_cons.
  rewrite IH by auto using wf_step. by apply outcome_step.
Qed.

(** Whatever was published stays published, in place. *)
Lemma published_step w a :
  wf w -> exists more, published (step w a) = published w ++ more.
Proof.
  intros Hwf. unfold step.
  destruct (crash w) eqn:Hc; [exists []; by rewrite app_nil_r|].
  pose proof Hwf as (Hopen & _ & Hq & _). specialize (Hopen Hc).
  destruct a as [MakeRequest| | |].
  - destruct (at_point w) eqn:Hp; try (exists []; by rewrite app_nil_r).
    exists []. rewrite app_nil_r.
    unfold enter_iteration. destruct (shutdownChannel (bot w)).
    + unfold chan_close. by rewrite Hopen, Hq.
    + by destruct (GetUpdates MakeRequest (config w)).
  - destruct (at_point w) as [|[|u rest]| |] eqn:Hp;
      try (exists []; by rewrite app_nil_r).
    unfold range_turn. destruct (Offset (config w) <=? UpdateID u);
      [|exists []; by rewrite app_nil_r].
    unfold chan_send. poller_simpl. rewrite Hopen.
    destruct (Z.of_nat (length (buf (ch w))) <? cap (ch w)).
    + exists [u]. unfold published. poller_simpl. by rewrite app_assoc.
    + exists []. by rewrite app_nil_r.
  - assert (exists more, published (app_receive w) = published w ++ more)
      as Hpub.
    { unfold app_receive, chan_recv.
      destruct (buf (ch w)) as [|x b] eqn:Hb, (sendq (ch w)) as [|s q] eqn:Hs.
      - exists []. rewrite app_nil_r. by destruct (closed (ch w)).
      - exists [s]. destruct (at_point w); unfold published; poller_simpl;
          rewrite ?Hb; simpl; by rewrite ?app_nil_r.
      - exists []. destruct (at_point w); unfold published; poller_simpl;
          rewrite ?Hb, app_nil_r; by rewrite <- app_assoc.
      - exists [s]. destruct (at_point w); unfold published; poller_simpl;
          rewrite ?Hb; by rewrite <- !app_assoc. }
    by destruct (at_point w).
  - exists []. rewrite app_nil_r.
    assert (published (StopReceivingUpdates w) = published w) as Hpub
      by (unfold StopReceivingUpdates; by destruct (shutdownChannel (bot w))).
    by destruct (at_point w).
Qed.

Lemma published_run w schedule :
  wf w -> exists more, published (run w schedule) = published w ++ more.
Proof.
  revert w. induction schedule as [|a s IH]; intros w Hwf.
  - exists []. by rewrite app_nil_r.
  - rewrite run_cons. destruct (published_step w a Hwf) as [m1 H1].
    destruct (IH (step w a) (wf_step w a Hwf)) as [m2 H2].
    exists (m1 ++ m2). by rewrite H2, H1, app_assoc.
Qed.

(** ** The range loop as a function *)

Lemma range_loop_ascending batch : forall o,
  well_typed batch -> ascending batch ->
  Forall (fun u => o <= UpdateID u) batch ->
  range_loop o batch = (cursor_after o batch, batch).
Proof.
  induction batch as [|u rest IH]; intros o Hty Hasc Hge; [done|].
  apply Forall_cons in Hty as [Hu Hty]. apply Forall_cons in Hge as [Hou Hge].
  apply StronglySorted_inv in Hasc as [Hasc Hlt].
  simpl. destruct (Z.leb_spec o (UpdateID u)); [|lia].
  rewrite (IH (GoInt.add (UpdateID u) 1)); try done.
  - unfold cursor_after. destruct rest as [|v rest']; [done|].
    rewrite (last_cons_cons u v rest'), last_cons. by destruct (last rest').
  - rewrite Forall_forall in Hlt, Hty. apply Forall_forall. intros v Hv.
    specialize (Hlt v Hv). specialize (Hty v Hv).
    unfold GoInt.in_range in *. rewrite add_1_below_max; lia.
Qed.

Lemma range_loop_stale batch : forall o,
  Forall (fun u => UpdateID u < o) batch -> range_loop o batch = (o, []).
Proof.
  induction batch as [|u rest IH]; intros o Hlt; [done|].
  apply Forall_cons in Hlt as [Hu Hlt]. simpl.
  destruct (Z.leb_spec o (UpdateID u)); [lia|]. by apply IH.
Qed.

Lemma range_loop_above batch : forall o,
  below_max batch ->
  o <= fst (range_loop o batch) /\
  Forall (fun u => UpdateID u < fst (range_loop o batch)) batch.
Proof.
  induction batch as [|u rest IH]; intros o Hb; [simpl; split; [lia|done]|].
  apply Forall_cons in Hb as [Hu Hb]. simpl.
  destruct (Z.leb_spec o (UpdateID u)).
  - destruct (IH (GoInt.add (UpdateID u) 1) Hb) as [Hle Hall].
    destruct (range_loop (GoInt.add (UpdateID u) 1) rest) as [o' out].
    simpl in *. rewrite add_1_below_max in Hle by lia.
    split; [lia|]. apply Forall_cons. split; [lia|done].
  - destruct (IH o Hb) as [Hle Hall]. split; [done|].
    apply Forall_cons. split; [lia|done].
Qed.

Lemma range_loop_again batch o :
  below_max batch ->
  range_loop (fst (range_loop o batch)) batch = (fst (range_loop o batch), []).
Proof. intros Hb. apply range_loop_stale. by apply range_loop_above. Qed.

Lemma range_loop_silent batch : forall o,
  snd (range_loop o batch) = [] -> fst (range_loop o batch) = o.
Proof.
  induction batch as [|u rest IH]; intros o; [done|]. simpl.
  destruct (o <=? UpdateID u); [|apply IH].
  by destruct (range_loop (GoInt.add (UpdateID u) 1) rest).
Qed.

(** ** Progress while the application keeps receiving *)

Lemma app_receive_point w :
  wf w -> crash w = None ->
  crash (app_receive w) = None /\
  at_point (app_receive w) =
    match at_point w with Sending rest => InRange rest | p => p end.
Proof.
  intros (_ & _ & Hq & _) Hc. unfold app_receive, chan_recv.
  destruct (buf (ch w)) as [|x b], (sendq (ch w)) as [|s q];
    destruct (at_point w) eqn:Hp; poller_simpl;
    try (by destruct Hq); try done;
    destruct (closed (ch w)); by rewrite ?Hp.
Qed.

Lemma range_turn_point u rest w :
  wf w -> crash w = None ->
  crash (range_turn u rest w) = None /\
  (at_point (range_turn u rest w) = InRange rest \/
   at_point (range_turn u rest w) = Sending rest).
Proof.
  intros (Hopen & _) Hc. specialize (Hopen Hc).
  unfold range_turn, chan_send. poller_simpl. rewrite Hopen.
  destruct (Offset (config w) <=? UpdateID u);
    [destruct (Z.of_nat (length (buf (ch w))) <? cap (ch w))|];
    poller_simpl; auto.
Qed.

Lemma round_InRange_cons u rest w :
  wf w -> crash w = None -> at_point w = InRange (u :: rest) ->
  crash (run w [Tick; Receive]) = None /\
  at_point (run w [Tick; Receive]) = InRange rest.
Proof.
  intros Hwf Hc Hp.
  assert (step w Tick = range_turn u rest w) as Ht
    by (unfold step; by rewrite Hc, Hp).
  destruct (range_turn_point u rest w Hwf Hc) as [Hc' Hp'].
  pose proof (wf_range_turn u rest w Hc Hp Hwf) as Hwf'.
  unfold run. simpl. rewrite Ht, step_Receive by done.
  destruct (app_receive_point _ Hwf' Hc') as [Hc'' Hp''].
  split; [done|]. rewrite Hp''. by destruct Hp' as [-> | ->].
Qed.

Lemma round_InRange_nil w :
  wf w -> crash w = None -> at_point w = InRange [] ->
  crash (run w [Tick; Receive]) = None /\
  at_point (run w [Tick; Receive]) = AtSelect.
Proof.
  intros Hwf Hc Hp.
  assert (step w Tick = set_point AtSelect w) as Ht
    by (unfold step; by rewrite Hc, Hp).
  pose proof (wf_step w Tick Hwf) as Hwf'. rewrite Ht in Hwf'.
  unfold run. simpl. rewrite Ht, step_Receive by done.
  by destruct (app_receive_point _ Hwf' Hc) as [Hc'' Hp''].
Qed.

Lemma drain_S n : drain (S n) = [Tick; Receive] ++ drain n.
Proof. reflexivity. Qed.

Lemma drain_within_batch n : within_batch (drain n).
Proof.
  induction n as [|n IH]; [constructor|].
  rewrite drain_S. by repeat constructor.
Qed.

Lemma drain_reaches_select rest : forall w,
  wf w -> crash w = None -> at_point w = InRange rest ->
  crash (run w (drain (S (length rest)))) = None /\
  at_point (run w (drain (S (length rest)))) = AtSelect.
Proof.
  induction rest as [|u rest IH]; intros w Hwf Hc Hp.
  - change (drain 1) with [Tick; Receive]. by apply round_InRange_nil.
  - cbn [length]. rewrite drain_S, run_app.
    destruct (round_InRange_cons u rest w Hwf Hc Hp) as [Hc' Hp'].
    apply IH; auto using wf_run.
Qed.

(** ** One iteration of the polling loop *)

Lemma enter_iteration_shutdown MakeRequest w :
  wf w -> crash w = None -> at_point w = AtSelect ->
  shutdownChannel (bot w) = true ->
  enter_iteration MakeRequest w =
    panics close_of_closed_channel (set_ch (close_flag (ch w)) w).
Proof.
  intros (Hopen & _ & Hq & _) Hc Hp Hs. rewrite Hp in Hq.
  unfold enter_iteration, chan_close. by rewrite Hs, (Hopen Hc), Hq.
Qed.

Lemma step_Iter_ok MakeRequest w batch :
  crash w = None -> at_point w = AtSelect ->
  shutdownChannel (bot w) = false ->
  GetUpdates MakeRequest (config w) = inr batch ->
  step w (Iter MakeRequest) = set_point (InRange batch) w.
Proof.
  intros Hc Hp Hs Hg. unfold step, enter_iteration. by rewrite Hc, Hp, Hs, Hg.
Qed.

Lemma outcome_entered w batch :
  wf w -> at_point w = AtSelect ->
  outcome (set_point (InRange batch) w) =
    (fst (range_loop (Offset (config w)) batch),
     published w ++ snd (range_loop (Offset (config w)) batch)).
Proof.
  intros (_ & _ & Hq & _) Hp. rewrite Hp in Hq.
  unfold outcome, unvisited, published. poller_simpl. rewrite Hq.
  by destruct (range_loop (Offset (config w)) batch).
Qed.

Lemma wf_entered w batch :
  wf w -> at_point w = AtSelect -> wf (set_point (InRange batch) w).
Proof.
  intros (Hopen & _ & Hq & Hlen) Hp. rewrite Hp in Hq.
  unfold wf. poller_simpl. repeat split; done.
Qed.

(** A pass over a batch that has nothing new leaves the published sequence
    and the cursor as they were, wherever the pass is interrupted. *)
Lemma silent_pass w MakeRequest batch schedule :
  wf w -> at_point w = AtSelect ->
  GetUpdates MakeRequest (config w) = inr batch ->
  range_loop (Offset (config w)) batch = (Offset (config w), []) ->
  within_batch schedule ->
  published (run w (Iter MakeRequest :: schedule)) = published w /\
  Offset (config (run w (Iter MakeRequest :: schedule))) = Offset (config w).
Proof.
  intros Hwf Hp Hg Hsilent Hs. rewrite run_cons.
  destruct (crash w) eqn:Hc.
  { rewrite step_crashed, run_crashed by (by rewrite Hc). done. }
  destruct (shutdownChannel (bot w)) eqn:Hsh.
  { unfold step. rewrite Hc, Hp, enter_iteration_shutdown by done.
    by rewrite run_crashed. }
  rewrite (step_Iter_ok _ _ batch) by done.
  pose proof (wf_entered w batch Hwf Hp) as Hwf'.
  pose proof (outcome_run _ schedule Hwf' Hs) as Hout.
  rewrite outcome_entered, Hsilent in Hout by done. simpl in Hout.
  destruct (published_run _ schedule Hwf') as [more Hmore].
  set (w' := run (set_point (InRange batch) w) schedule) in *.
  change (published (set_point (InRange batch) w)) with (published w) in Hmore.
  unfold outcome in Hout.
  pose proof (range_loop_silent (unvisited w') (Offset (config w'))) as Hsil.
  destruct (range_loop (Offset (config w')) (unvisited w')) as [o out].
  injection Hout as Ho Hpub. rewrite Hmore, app_nil_r in Hpub.
  rewrite <- app_assoc in Hpub.
  rewrite <- (app_nil_r (published w)) in Hpub at 2.
  apply app_inv_head in Hpub. apply app_eq_nil in Hpub as [-> Hrest].
  apply app_eq_nil in Hrest as [_ ->]. rewrite Hmore, app_nil_r.
  split; [done|]. simpl in Hsil. by rewrite <- Hsil.
Qed.

Lemma sample_poller_started maxchan buffer offset :
  0 <= buffer <= Z.of_N maxchan ->
  GetUpdatesChan maxchan (sample_bot buffer) (sample_config offset) =
    inr (sample_poller buffer offset).
Proof.
  intros H. unfold GetUpdatesChan. by rewrite make_chan_fits.
Qed.

Lemma wf_sample_poller buffer offset :
  0 <= buffer -> wf (sample_poller buffer offset).
Proof.
  intros H.
  apply (wf_GetUpdatesChan (Z.to_N buffer) (sample_bot buffer)
           (sample_config offset)), sample_poller_started.
  lia.
Qed.

(** ** Ordered delivery of a fresh batch *)

(** C1, as amended.  At an iteration boundary of a running loop, when the
    fetch returns a batch whose identifiers are strictly increasing and none
    below the cursor, every interleaving of the rest of that iteration with
    the application that brings the goroutine back to the boundary has
    published exactly the batch, in order, after what was published before,
    and has left the cursor at Go's [sn + 1] for the last identifier [sn];
    an application that keeps receiving does bring it there.  Go's [sn + 1]
    is [sn + 1] whenever [sn] is below the largest [int]. *)
Theorem batch_published_in_order w MakeRequest batch schedule :
  wf w -> crash w = None -> at_point w = AtSelect ->
  shutdownChannel (bot w) = false ->
  GetUpdates MakeRequest (config w) = inr batch ->
  well_typed batch -> ascending batch ->
  Forall (fun u => Offset (config w) <= UpdateID u) batch ->
  within_batch schedule ->
  let cursor := cursor_after (Offset (config w)) batch in
  let w1 := run w (Iter MakeRequest :: schedule) in
  let w2 := run w (Iter MakeRequest :: drain (S (length batch))) in
  (at_point w1 = AtSelect ->
   published w1 = published w ++ batch /\ Offset (config w1) = cursor) /\
  (at_point w2 = AtSelect /\ crash w2 = None /\
   published w2 = published w ++ batch /\ Offset (config w2) = cursor) /\
  (forall u, last batch = Some u -> UpdateID u < GoInt.max_int ->
     cursor = UpdateID u + 1).
Proof.
  intros Hwf Hc Hp Hsh Hg Hty Hasc Hge Hs cursor w1 w2.
  assert (forall s, within_batch s ->
            at_point (run w (Iter MakeRequest :: s)) = AtSelect ->
            published (run w (Iter MakeRequest :: s)) = published w ++ batch /\
            Offset (config (run w (Iter MakeRequest :: s))) = cursor) as Hsafe.
  { intros s Hws Hback. rewrite run_cons, (step_Iter_ok _ _ batch) in * by done.
    pose proof (wf_entered w batch Hwf Hp) as Hwf'.
    pose proof (outcome_run _ s Hwf' Hws) as Hout.
    rewrite outcome_AtSelect in Hout by auto using wf_run.
    rewrite outcome_entered, range_loop_ascending in Hout by done.
    by injection Hout as -> ->. }
  assert (at_point w2 = AtSelect /\ crash w2 = None) as [Hp2 Hc2].
  { subst w2. rewrite run_cons, (step_Iter_ok _ _ batch) by done.
    apply and_comm, drain_reaches_select; [by apply wf_entered|done..]. }
  split; [by apply Hsafe|]. split.
  - destruct (Hsafe (drain (S (length batch))) (drain_within_batch _) Hp2).
    done.
  - intros u Hu Hmax. subst cursor. unfold cursor_after. rewrite Hu.
    apply add_1_below_max; [|done].
    apply last_Some in Hu as [l' ->]. unfold well_typed in Hty.
    rewrite Forall_app in Hty.
    destruct Hty as [_ Hty]. apply Forall_cons in Hty as [[Hlo _] _]. done.
Qed.

(** A batch of three on a channel with a single slot: the goroutine parks
    twice and the application's receives let it through. *)
Lemma batch_published_in_order_witness :
  let w := sample_poller 1 0 in
  let batch := [update 5; update 6; update 7] in
  let w2 := run w (Iter (answers batch) :: drain 4) in
  at_point w2 = AtSelect /\ crash w2 = None /\
  published w2 = batch /\ Offset (config w2) = 8.
Proof.
  intros w batch w2.
  assert (wf w) as Hwf by (apply wf_sample_poller; lia).
  assert (well_typed batch) as Hty by on_list.
  assert (ascending batch) as Hasc by on_list.
  assert (Forall (fun u => Offset (config w) <= UpdateID u) batch) as Hge
    by on_list.
  destruct (batch_published_in_order w (answers batch) batch (drain 4)
              Hwf eq_refl eq_refl eq_refl eq_refl Hty Hasc Hge
              (drain_within_batch 4)) as (_ & H2 & _).
  exact H2.
Defined.

(** C1 as stated fails at the largest [int]: the update is published and the
    cursor wraps to the smallest [int] instead of reaching [sn + 1]. *)
Lemma cursor_wraps_after_max_int :
  let u := update GoInt.max_int in
  let w := sample_poller 100 0 in
  let w' := run w [Iter (answers [u]); Tick; Tick] in
  (ascending [u] /\ Forall (fun v => Offset (config w) <= UpdateID v) [u]) /\
  at_point w' = AtSelect /\ published w' = [u] /\
  Offset (config w') = GoInt.min_int /\
  Offset (config w') <> UpdateID u + 1.
Proof. split; [split; on_list|]. vm_compute. repeat split; discriminate. Qed.

(** ** Stale updates *)

(** C2.  In the range loop an update whose identifier is below the current
    cursor is skipped: the turn changes nothing but the loop position, so
    nothing is sent and the cursor stays.  The comparison is all there is:
    an update that is not below the cursor is sent (or parked for sending)
    whatever was published before.  A batch with stale updates only leaves
    the published sequence and the cursor untouched. *)
Theorem stale_update_dropped w u rest :
  wf w -> crash w = None -> at_point w = InRange (u :: rest) ->
  (UpdateID u < Offset (config w) ->
   step w Tick = set_point (InRange rest) w /\
   published (step w Tick) = published w /\
   sendq (ch (step w Tick)) = [] /\
   config (step w Tick) = config w) /\
  (Offset (config w) <= UpdateID u ->
   published (step w Tick) ++ sendq (ch (step w Tick)) = published w ++ [u]) /\
  (forall MakeRequest batch schedule w0,
     wf w0 -> at_point w0 = AtSelect ->
     GetUpdates MakeRequest (config w0) = inr batch ->
     Forall (fun v => UpdateID v < Offset (config w0)) batch ->
     within_batch schedule ->
     published (run w0 (Iter MakeRequest :: schedule)) = published w0 /\
     Offset (config (run w0 (Iter MakeRequest :: schedule))) =
       Offset (config w0)).
Proof.
  intros Hwf Hc Hp. pose proof Hwf as (Hopen & _ & Hq & _).
  specialize (Hopen Hc). rewrite Hp in Hq.
  assert (step w Tick = range_turn u rest w) as ->
    by (unfold step; by rewrite Hc, Hp).
  unfold range_turn. repeat split.
  - destruct (Z.leb_spec (Offset (config w)) (UpdateID u)); [lia|done].
  - destruct (Z.leb_spec (Offset (config w)) (UpdateID u)); [lia|done].
  - destruct (Z.leb_spec (Offset (config w)) (UpdateID u)); [lia|done].
  - destruct (Z.leb_spec (Offset (config w)) (UpdateID u)); [lia|done].
  - intros Hge. destruct (Z.leb_spec (Offset (config w)) (UpdateID u)); [|lia].
    unfold chan_send. poller_simpl. rewrite Hopen.
    destruct (Z.of_nat (length (buf (ch w))) <? cap (ch w));
      unfold published; poller_simpl; rewrite ?Hq; simpl;
      by rewrite ?app_nil_r, ?app_assoc.
  - eapply silent_pass; eauto. by apply range_loop_stale.
  - eapply silent_pass; eauto. by apply range_loop_stale.
Qed.

Lemma stale_update_dropped_witness :
  let w := set_point (InRange [update 3; update 9]) (sample_poller 100 5) in
  step w Tick = set_point (InRange [update 9]) w /\
  published (run w [Tick; Tick]) = [update 9] /\
  published (run (sample_poller 100 5)
               [Iter (answers [update 3; update 4]); Tick; Tick; Tick]) = [].
Proof.
  intros w.
  assert (wf (sample_poller 100 5)) as Hwf0 by (apply wf_sample_poller; lia).
  assert (wf w) as Hwf by (by apply wf_entered).
  destruct (stale_update_dropped w (update 3) [update 9] Hwf eq_refl eq_refl)
    as (Hdrop & _ & Hbatch).
  destruct Hdrop as (Hstep & _); [simpl; lia|].
  split; [exact Hstep|]. split; [reflexivity|].
  destruct (Hbatch (answers [update 3; update 4]) [update 3; update 4]
              [Tick; Tick; Tick] (sample_poller 100 5) Hwf0 eq_refl eq_refl)
    as [Hpub _].
  - on_list.
  - on_list.
  - exact Hpub.
Defined.

(** ** The cursor over a whole session *)

Lemma max_id_snoc l u :
  Forall (fun v => UpdateID v < UpdateID u) l ->
  max_id (l ++ [u]) = Some (UpdateID u).
Proof.
  induction l as [|v l IH]; intros Hlt; [done|].
  apply Forall_cons in Hlt as [Hv Hlt]. simpl. rewrite IH by done.
  f_equal. lia.
Qed.

Lemma handed_over_app_receive w :
  wf w ->
  handed_over (app_receive w) = handed_over w /\
  config (app_receive w) = config w /\
  unvisited (app_receive w) = unvisited w.
Proof.
  intros (_ & _ & Hq & _). unfold app_receive, chan_recv.
  destruct (buf (ch w)) as [|x b] eqn:Hb, (sendq (ch w)) as [|s q] eqn:Hs;
    destruct (at_point w) eqn:Hp; try (by destruct Hq);
    try (by destruct (closed (ch w)));
    unfold handed_over, published, unvisited; poller_simpl;
    rewrite ?Hp, ?Hb, ?Hs; by rewrite <- ?app_assoc.
Qed.

Lemma cursor_inv_step initial w a :
  wf w -> tame a -> cursor_inv initial w ->
  cursor_inv initial (step w a) /\
  Offset (config w) <= Offset (config (step w a)).
Proof.
  intros Hwf Ha Hinv. unfold step.
  destruct (crash w) eqn:Hc; [split; [done|lia]|].
  pose proof Hwf as (Hopen & _ & Hq & _). specialize (Hopen Hc).
  destruct a as [MakeRequest| | |].
  - destruct (at_point w) eqn:Hp; try (split; [done|lia]).
    unfold enter_iteration. destruct (shutdownChannel (bot w)).
    + unfold chan_close. rewrite Hopen, Hq. poller_simpl.
      split; [|lia]. destruct Hinv as (H1 & H2 & H3).
      unfold cursor_inv, handed_over, published, unvisited in *.
      poller_simpl. by rewrite Hp, Hq in *.
    + unfold GetUpdates in *.
      destruct (MakeRequest "getUpdates" (GetUpdates_values (config w)))
        as [err|updates] eqn:Hg; poller_simpl.
      * split; [|lia]. destruct Hinv as (H1 & H2 & H3).
        unfold cursor_inv, handed_over, published, unvisited in *.
        poller_simpl. by rewrite Hp in *.
      * split; [|lia]. destruct Hinv as (H1 & H2 & H3).
        unfold cursor_inv, handed_over, published, unvisited in *.
        poller_simpl. repeat split; try done. by eapply Ha.
  - destruct (at_point w) as [|[|u rest]| |] eqn:Hp; try (split; [done|lia]).
    + split; [|poller_simpl; lia]. destruct Hinv as (H1 & H2 & H3).
      unfold cursor_inv, handed_over, published, unvisited in *.
      poller_simpl. by rewrite Hp in *.
    + destruct Hinv as (H1 & H2 & H3).
      unfold unvisited in H3. rewrite Hp in H3.
      apply Forall_cons in H3 as [[Hlo Hhi] H3].
      unfold range_turn. destruct (Z.leb_spec (Offset (config w)) (UpdateID u)).
      * assert (handed_over w = published w) as Hho
          by (unfold handed_over; by rewrite Hq, app_nil_r).
        rewrite Hho in *.
        assert (Forall (fun v => UpdateID v < UpdateID u) (published w)) as Hold
          by (eapply Forall_impl; [exact H1|]; simpl; intros; lia).
        unfold chan_send. poller_simpl. rewrite Hopen.
        assert (forall w', handed_over w' = published w ++ [u] ->
                  Offset (config w') = GoInt.add (UpdateID u) 1 ->
                  unvisited w' = rest ->
                  cursor_inv initial w' /\
                  Offset (config w) <= Offset (config w')) as Hnew.
        { intros w' Hh Ho Hu. rewrite add_1_below_max in Ho by done.
          unfold cursor_inv. rewrite Hh, Ho, Hu, max_id_snoc by done.
          repeat split; try done; [|lia].
          apply Forall_app. split.
          - eapply Forall_impl; [exact Hold|]. simpl. intros. lia.
          - apply Forall_cons. split; [lia|done]. }
        destruct (Z.of_nat (length (buf (ch w))) <? cap (ch w));
          apply Hnew; unfold handed_over, published, unvisited; poller_simpl;
          rewrite ?Hq; simpl; by rewrite ?app_nil_r, ?app_assoc.
      * split; [|poller_simpl; lia].
        unfold cursor_inv, handed_over, published, unvisited in *.
        poller_simpl. by rewrite ?Hq in *.
  - destruct (handed_over_app_receive w Hwf) as (Hh & Hcfg & Hu).
    assert (cursor_inv initial (app_receive w) /\
            Offset (config w) <= Offset (config (app_receive w))) as Hgoal.
    { split; [|rewrite Hcfg; lia]. unfold cursor_inv. by rewrite Hh, Hcfg, Hu. }
    by destruct (at_point w).
  - assert (cursor_inv initial (StopReceivingUpdates w) /\
            Offset (config w) <= Offset (config (StopReceivingUpdates w)))
      as Hgoal.
    { unfold StopReceivingUpdates. destruct (shutdownChannel (bot w));
        (split; [done|poller_simpl; lia]). }
    by destruct (at_point w).
Qed.

Lemma cursor_inv_run initial schedule : forall w,
  wf w -> Forall tame schedule -> cursor_inv initial w ->
  cursor_inv initial (run w schedule) /\
  Offset (config w) <= Offset (config (run w schedule)).
Proof.
  induction schedule as [|a s IH]; intros w Hwf Hs Hinv; [split; [done|simpl; lia]|].
  apply Forall_cons in Hs as [Ha Hs]. rewrite run_cons.
  destruct (cursor_inv_step initial w a Hwf Ha Hinv) as [Hinv' Hle].
  destruct (IH (step w a) (wf_step w a Hwf) Hs Hinv') as [Hinv'' Hle'].
  split; [done|lia].
Qed.

Lemma cursor_inv_GetUpdatesChan maxchan b cfg w :
  GetUpdatesChan maxchan b cfg = inr w -> cursor_inv (Offset cfg) w.
Proof.
  intros H. apply GetUpdatesChan_inr in H as [_ ->].
  unfold cursor_inv, handed_over, published, unvisited.
  poller_simpl. simpl. split; [constructor|]. split; [done|constructor].
Qed.

(** C5, as amended.  In a session in which every fetched identifier is below
    the largest [int], the cursor never decreases: at any moment it is at
    least what it was at any earlier moment.  At every iteration boundary it
    is one more than the largest identifier published so far, or the
    configured offset when nothing has been published. *)
Theorem cursor_never_decreases maxchan b cfg w0 schedule :
  GetUpdatesChan maxchan b cfg = inr w0 ->
  Forall tame schedule ->
  (forall earlier later, schedule = earlier ++ later ->
     Offset (config (run w0 earlier)) <= Offset (config (run w0 schedule))) /\
  (at_point (run w0 schedule) = AtSelect ->
     match max_id (published (run w0 schedule)) with
     | None => Offset (config (run w0 schedule)) = Offset cfg
     | Some m => Offset (config (run w0 schedule)) = m + 1
     end).
Proof.
  intros Hstart Htame.
  pose proof (wf_GetUpdatesChan maxchan b cfg w0 Hstart) as Hwf.
  pose proof (cursor_inv_GetUpdatesChan maxchan b cfg w0 Hstart) as Hinv.
  split.
  - intros earlier later ->. apply Forall_app in Htame as [He Hl].
    rewrite run_app.
    destruct (cursor_inv_run (Offset cfg) earlier w0 Hwf He Hinv) as [Hinv' _].
    by apply (cursor_inv_run (Offset cfg) later); [apply wf_run|..].
  - intros Hp.
    destruct (cursor_inv_run (Offset cfg) schedule w0 Hwf Htame Hinv)
      as [(_ & Hmax & _) _].
    pose proof (wf_run w0 schedule Hwf) as (_ & _ & Hq & _).
    rewrite Hp in Hq. unfold handed_over in Hmax.
    by rewrite Hq, app_nil_r in Hmax.
Qed.

Lemma cursor_never_decreases_witness :
  let w0 := sample_poller 1 0 in
  let schedule :=
    [Iter (answers [update 5; update 6]); Tick; Tick; Receive; Tick;
     Iter (fails (foreign_error "net/http" "timeout")); Stop] in
  Offset (config (run w0 [Iter (answers [update 5; update 6]); Tick]))
    <= Offset (config (run w0 schedule)) /\
  Offset (config (run w0 schedule)) = 6 + 1.
Proof.
  intros w0 schedule.
  assert (Forall tame schedule) as Htame.
  { repeat (apply Forall_cons; split); try apply Forall_nil; try exact I.
    - intros endpoint v updates [= <-]. on_list.
    - intros endpoint v updates [=]. }
  destruct (cursor_never_decreases sample_maxchan (sample_bot 1)
              (sample_config 0) w0 schedule eq_refl Htame)
    as [Hmono Hboundary].
  split.
  - apply (Hmono [Iter (answers [update 5; update 6]); Tick]
                 [Tick; Receive; Tick;
                  Iter (fails (foreign_error "net/http" "timeout")); Stop]).
    reflexivity.
  - apply (Hboundary eq_refl).
Defined.

(** C5 as stated fails when the largest [int] is delivered: the cursor
    drops from 0 to the smallest [int], and at the next boundary it is not
    one more than the largest identifier delivered. *)
Lemma cursor_decreases_at_max_int :
  let w0 := sample_poller 100 0 in
  let fetch := Iter (answers [update GoInt.max_int]) in
  Offset (config (run w0 [fetch; Tick])) < Offset (config (run w0 [fetch])) /\
  at_point (run w0 [fetch; Tick; Tick]) = AtSelect /\
  max_id (published (run w0 [fetch; Tick; Tick])) = Some GoInt.max_int /\
  Offset (config (run w0 [fetch; Tick; Tick])) <> GoInt.max_int + 1.
Proof. vm_compute. repeat split; discriminate. Qed.

(** ** The same batch twice *)

(** C6, as amended.  When the network answers two fetches in a row with the
    same batch, and the identifiers of the batch are below the largest
    [int], the second pass publishes nothing and leaves the cursor where the
    first pass put it, wherever the second pass is interrupted.  With offset
    0 and the batches [5, 6], then [6, 7], then empty batches for as long as
    one likes, updates 5, 6 and 7 are published once each, in that order,
    and the cursor ends at 8. *)
Theorem same_batch_twice w MakeRequest batch first second :
  wf w -> at_point w = AtSelect ->
  (forall cfg, GetUpdates MakeRequest cfg = inr batch) ->
  below_max batch -> within_batch first -> within_batch second ->
  let w1 := run w (Iter MakeRequest :: first) in
  let w2 := run w1 (Iter MakeRequest :: second) in
  at_point w1 = AtSelect ->
  (published w2 = published w1 /\ Offset (config w2) = Offset (config w1)) /\
  (forall n,
     let w' := run (sample_poller 100 0)
                 ([Iter (answers [update 5; update 6]); Tick; Tick; Tick;
                   Iter (answers [update 6; update 7]); Tick; Tick; Tick]
                  ++ idle n) in
     published w' = [update 5; update 6; update 7] /\
     Offset (config w') = 8 /\ at_point w' = AtSelect /\ crash w' = None).
Proof.
  intros Hwf Hp Hg Hb Hfirst Hsecond w1 w2 Hp1. split.
  - assert (wf w1) as Hwf1 by (by apply wf_run).
    destruct (crash w1) eqn:Hc1.
    { subst w2. by rewrite run_crashed by (by rewrite Hc1). }
    assert (w1 = run (set_point (InRange batch) w) first) as Hw1.
    { subst w1. rewrite run_cons. f_equal.
      destruct (crash w) eqn:Hc.
      { exfalso. rewrite run_cons, step_crashed, run_crashed in Hc1
          by (by rewrite Hc). congruence. }
      destruct (shutdownChannel (bot w)) eqn:Hsh.
      { exfalso. rewrite run_cons in Hc1. unfold step in Hc1.
        rewrite Hc, Hp, enter_iteration_shutdown, run_crashed in Hc1 by done.
        done. }
      by apply step_Iter_ok. }
    pose proof (outcome_run _ first (wf_entered w batch Hwf Hp) Hfirst) as Hout.
    rewrite <- Hw1, outcome_AtSelect, outcome_entered in Hout by done.
    injection Hout as Ho _.
    subst w2. apply (silent_pass w1 MakeRequest batch second); try done.
    rewrite Ho. by apply range_loop_again.
  - intros n w'. subst w'. rewrite run_app.
    set (w8 := run _ [_; _; _; _; _; _; _; _]).
    assert (run w8 (idle n) = w8) as ->.
    { induction n as [|n IH]; [done|].
      change (idle (S n)) with ([Iter (answers []); Tick] ++ idle n).
      by rewrite run_app. }
    by vm_compute.
Qed.

Lemma same_batch_twice_witness :
  let w := sample_poller 1 0 in
  let batch := [update 5; update 2; update 6] in
  let w1 := run w (Iter (answers batch) :: drain 4) in
  let w2 := run w1 [Iter (answers batch); Tick; Receive; Tick] in
  published w2 = published w1 /\ Offset (config w2) = Offset (config w1).
Proof.
  intros w batch w1 w2.
  assert (wf w) as Hwf by (apply wf_sample_poller; lia).
  assert (below_max batch) as Hb by on_list.
  assert (within_batch [Tick; Receive; Tick]) as Hsecond by on_list.
  destruct (same_batch_twice w (answers batch) batch (drain 4)
              [Tick; Receive; Tick] Hwf eq_refl (fun _ => eq_refl) Hb
              (drain_within_batch 4) Hsecond eq_refl) as [Hsame _].
  exact Hsame.
Defined.

(** C6 as stated fails for the batch that holds the largest [int]: the
    first pass wraps the cursor below the identifier, and the second pass
    publishes the update again. *)
Lemma max_int_published_twice :
  let u := update GoInt.max_int in
  let fetch := Iter (answers [u]) in
  let w1 := run (sample_poller 100 0) [fetch; Tick; Tick] in
  let w2 := run w1 [fetch; Tick; Tick] in
  at_point w1 = AtSelect /\ published w1 = [u] /\
  at_point w2 = AtSelect /\ published w2 = [u; u].
Proof. by vm_compute. Qed.

(** ** Failed fetches *)

Lemma same_delivery_erase w1 w2 : same_delivery w1 w2 <-> erase w1 = erase w2.
Proof.
  destruct w1, w2. unfold same_delivery, erase. simpl. split.
  - by intros (-> & -> & -> & -> & -> & ->).
  - by intros [= -> -> -> -> -> ->].
Qed.

(** No move looks at the log or at the clock. *)
Lemma erase_step w a : erase (step w a) = erase (step (erase w) a).
Proof.
  destruct w as [b cfg p c r l sl cr]. unfold step, erase. simpl.
  destruct cr; [done|]. destruct a as [MakeRequest| | |].
  - destruct p; try done. unfold enter_iteration. simpl.
    destruct (shutdownChannel b).
    + destruct (chan_close c) as [?|c1]; [done|]. simpl.
      by destruct (chan_close c1).
    + by destruct (GetUpdates MakeRequest cfg).
  - destruct p as [|[|u rest]| |]; try done. unfold range_turn. simpl.
    destruct (Offset cfg <=? UpdateID u); [|done].
    by destruct (chan_send c u).
  - assert (forall w, erase (app_receive w) = erase (app_receive (erase w)))
      as Hrecv.
    { intros [b' cfg' p' c' r' l' sl' cr']. unfold app_receive, erase. simpl.
      destruct (chan_recv c'); [|done..]. by destruct p'. }
    specialize (Hrecv (mkPoller b cfg p c r l sl None)). by destruct p.
  - assert (forall w, erase (StopReceivingUpdates w) =
                      erase (StopReceivingUpdates (erase w))) as Hstop.
    { intros [b' cfg' p' c' r' l' sl' cr']. unfold StopReceivingUpdates, erase.
      simpl. by destruct (shutdownChannel b'). }
    specialize (Hstop (mkPoller b cfg p c r l sl None)). by destruct p.
Qed.

Lemma same_delivery_step w1 w2 a :
  same_delivery w1 w2 -> same_delivery (step w1 a) (step w2 a).
Proof.
  rewrite !same_delivery_erase. intros H.
  by rewrite (erase_step w1), (erase_step w2), H.
Qed.

Lemma same_delivery_run schedule : forall w1 w2,
  same_delivery w1 w2 -> same_delivery (run w1 schedule) (run w2 schedule).
Proof.
  induction schedule as [|a s IH]; intros w1 w2 H; [done|].
  rewrite !run_cons. by apply IH, same_delivery_step.
Qed.

Lemma step_Iter_failed MakeRequest w err :
  crash w = None -> at_point w = AtSelect ->
  shutdownChannel (bot w) = false ->
  GetUpdates MakeRequest (config w) = inl err ->
  step w (Iter MakeRequest) =
    time_Sleep (Second * 3)
      (log_Println "Failed to get updates, retrying in 3 seconds..."
         (log_Println (Error err) w)).
Proof.
  intros Hc Hp Hs Hg. unfold step, enter_iteration. by rewrite Hc, Hp, Hs, Hg.
Qed.

Lemma failures_run transports : forall errs w,
  crash w = None -> at_point w = AtSelect ->
  shutdownChannel (bot w) = false ->
  Forall2 (fun t e => GetUpdates t (config w) = inl e) transports errs ->
  same_delivery (run w (map Iter transports)) w /\
  logged (run w (map Iter transports)) =
    logged w ++ concat (map failure_lines errs) /\
  slept (run w (map Iter transports)) =
    slept w ++ replicate (length errs) (Second * 3).
Proof.
  induction transports as [|t ts IH]; intros errs w Hc Hp Hs Hfail.
  - apply Forall2_nil_inv_l in Hfail as ->. simpl.
    by rewrite !app_nil_r.
  - apply Forall2_cons_inv_l in Hfail as (e & errs' & He & Hfail & ->).
    cbn [map]. rewrite run_cons, (step_Iter_failed t w e) by done.
    set (w1 := time_Sleep _ _).
    destruct (IH errs' w1) as (Hsame & Hlog & Hslept); try done.
    split; [|split].
    + destruct Hsame as (? & ? & ? & ? & ? & ?). by repeat split.
    + rewrite Hlog. subst w1. poller_simpl. simpl.
      by rewrite <- !app_assoc.
    + rewrite Hslept. subst w1. poller_simpl. simpl.
      by rewrite <- !app_assoc.
Qed.

(** C4.  From an iteration boundary of a running loop, any number of
    failed fetches in a row leaves the goroutine at the boundary with the
    same cursor, the same open channel and the same application side: each
    failure adds the error and the retry line to the log and a sleep of
    three seconds, nothing else.  Whatever happens afterwards happens as if
    the failures had not occurred; in particular a successful fetch that
    follows has its new updates published once the application has kept
    receiving. *)
Theorem fetch_failures_contained w transports errs :
  wf w -> crash w = None -> at_point w = AtSelect ->
  shutdownChannel (bot w) = false ->
  Forall2 (fun t e => GetUpdates t (config w) = inl e) transports errs ->
  let failures := map Iter transports in
  let w' := run w failures in
  (same_delivery w' w /\ closed (ch w') = false /\ crash w' = None) /\
  logged w' = logged w ++ concat (map failure_lines errs) /\
  slept w' = slept w ++ replicate (length errs) (Second * 3) /\
  (forall schedule,
     same_delivery (run w (failures ++ schedule)) (run w schedule)) /\
  (forall MakeRequest batch,
     GetUpdates MakeRequest (config w) = inr batch ->
     let w2 := run w (failures ++ Iter MakeRequest :: drain (S (length batch))) in
     at_point w2 = AtSelect /\ crash w2 = None /\ closed (ch w2) = false /\
     published w2 = published w ++ snd (range_loop (Offset (config w)) batch)).
Proof.
  intros Hwf Hc Hp Hs Hfail failures w'.
  destruct (failures_run transports errs w Hc Hp Hs Hfail)
    as (Hsame & Hlog & Hslept).
  assert (forall schedule,
            same_delivery (run w (failures ++ schedule)) (run w schedule))
    as Hafter.
  { intros schedule. rewrite run_app. by apply same_delivery_run. }
  pose proof Hsame as (_ & _ & _ & Hch & _ & Hcr).
  pose proof Hwf as (Hopen & _).
  split; [split; [done|split]|split; [done|split; [done|split; [done|]]]].
  - subst w' failures. rewrite Hch. by apply Hopen.
  - subst w' failures. by rewrite Hcr.
  - intros MakeRequest batch Hg w2.
    set (rest := Iter MakeRequest :: drain (S (length batch))) in *.
    destruct (Hafter rest) as (_ & _ & Hp2 & Hch2 & Hrc2 & Hcr2).
    assert (crash (run w rest) = None /\ at_point (run w rest) = AtSelect)
      as [Hc3 Hp3].
    { subst rest. rewrite run_cons, (step_Iter_ok _ _ batch) by done.
      apply drain_reaches_select; [by apply wf_entered|done..]. }
    pose proof (wf_run w rest Hwf) as Hwf3. pose proof Hwf3 as (Hopen3 & _).
    assert (published (run w rest) =
            published w ++ snd (range_loop (Offset (config w)) batch)) as Hpub3.
    { pose proof (outcome_AtSelect _ Hwf3 Hp3) as Hout. subst rest.
      rewrite run_cons, (step_Iter_ok _ _ batch) in * by done.
      rewrite outcome_run, outcome_entered in Hout
        by auto using wf_entered, drain_within_batch.
      by injection Hout as _ ->. }
    subst w2. split; [by rewrite Hp2|]. split; [by rewrite Hcr2|].
    split; [rewrite Hch2; by apply Hopen3|].
    unfold published in *. by rewrite Hch2, Hrc2.
Qed.

Lemma fetch_failures_contained_witness :
  let w := sample_poller 100 0 in
  let down := fails (foreign_error "net/http" "connection refused") in
  let w2 := run w ([Iter down; Iter down; Iter down]
                   ++ Iter (answers [update 5; update 6]) :: drain 3) in
  at_point w2 = AtSelect /\ crash w2 = None /\ closed (ch w2) = false /\
  published w2 = [update 5; update 6].
Proof.
  intros w down w2.
  assert (wf w) as Hwf by (apply wf_sample_poller; lia).
  assert (Forall2 (fun t e => GetUpdates t (config w) = inl e)
            [down; down; down]
            (replicate 3 (foreign_error "net/http" "connection refused")))
    as Hfail by (by repeat constructor).
  destruct (fetch_failures_contained w [down; down; down] _ Hwf
              eq_refl eq_refl eq_refl Hfail) as (_ & _ & _ & _ & Hok).
  exact (Hok (answers [update 5; update 6]) [update 5; update 6] eq_refl).
Defined.

(** ** Stopping *)

Lemma never_Returned maxchan b cfg w0 schedule :
  GetUpdatesChan maxchan b cfg = inr w0 -> at_point (run w0 schedule) <> Returned.
Proof.
  intros Hstart.
  by destruct (wf_run w0 schedule (wf_GetUpdatesChan maxchan b cfg w0 Hstart))
    as (_ & Hret & _).
Qed.

(** C3 fails on the code.  Once [StopReceivingUpdates] has closed the
    shutdown channel, the next pass through the [select] closes the output
    channel and returns, and the deferred [close(ch)] closes it a second
    time: the goroutine panics with "close of closed channel" instead of
    terminating.  The panic ends the process, so nothing is received
    afterwards, and no schedule ever brings the goroutine to a normal
    return. *)
Theorem stop_closes_channel_twice maxchan b cfg w0 schedule MakeRequest :
  GetUpdatesChan maxchan b cfg = inr w0 ->
  let w := run w0 schedule in
  crash w = None -> at_point w = AtSelect ->
  shutdownChannel (bot w) = true ->
  let w' := step w (Iter MakeRequest) in
  chan_close (ch w) = inr (close_flag (ch w)) /\
  chan_close (close_flag (ch w)) = inl close_of_closed_channel /\
  crash w' = Some close_of_closed_channel /\
  at_point w' <> Returned /\
  (forall later, run w' later = w') /\
  (forall any, at_point (run w0 any) <> Returned).
Proof.
  intros Hstart w Hc Hp Hsh w'.
  pose proof (wf_GetUpdatesChan maxchan b cfg w0 Hstart) as Hwf0.
  pose proof (wf_run w0 schedule Hwf0) as Hwf. fold w in Hwf.
  pose proof Hwf as (Hopen & _ & Hq & _). rewrite Hp in Hq.
  assert (w' = panics close_of_closed_channel (set_ch (close_flag (ch w)) w))
    as Hw'.
  { subst w'. unfold step. rewrite Hc, Hp. by apply enter_iteration_shutdown. }
  split; [unfold chan_close; by rewrite (Hopen Hc), Hq|].
  split; [done|]. split; [by rewrite Hw'|].
  split; [rewrite Hw'; poller_simpl; by rewrite Hp|].
  split; [intros later; apply run_crashed; by rewrite Hw'|].
  intros any. by eapply never_Returned.
Qed.

(** One update is fetched and queued, the application stops the loop
    without having received it: the next iteration panics and the update is
    never received. *)
Lemma stop_closes_channel_twice_witness :
  let w0 := sample_poller 100 0 in
  let w := run w0 [Iter (answers [update 5]); Tick; Tick; Stop] in
  let w' := step w (Iter (answers [])) in
  crash w' = Some close_of_closed_channel /\
  at_point w' <> Returned /\
  buf (ch w') = [update 5] /\ received (run w' [Receive]) = [].
Proof.
  intros w0 w w'.
  destruct (stop_closes_channel_twice sample_maxchan (sample_bot 100) (sample_config 0) w0
              [Iter (answers [update 5]); Tick; Tick; Stop] (answers [])
              eq_refl eq_refl eq_refl eq_refl)
    as (_ & _ & Hcrash & Hret & Hfrozen & _).
  split; [exact Hcrash|]. split; [exact Hret|]. split; [reflexivity|].
  fold w w' in Hfrozen. by rewrite Hfrozen.
Defined.

(** ** The webhook *)

Lemma HandleUpdate_wrong_method Decode r :
  Method r <> MethodPost ->
  HandleUpdate Decode r =
    (inl (errors_New "wrong HTTP method required POST"), r).
Proof.
  intros Hm. unfold HandleUpdate.
  by destruct (String.eqb_spec (Method r) MethodPost).
Qed.

Lemma HandleUpdate_post Decode r :
  Method r = MethodPost ->
  fst (HandleUpdate Decode r) = fst (Decode (Body r)).
Proof.
  intros Hm. unfold HandleUpdate. rewrite Hm. simpl.
  by destruct (Decode (Body r)) as [[err|u] unread].
Qed.




(** C9.  When the method is not POST, [HandleUpdate] returns the method
    error and hands the request back with its body unread; the result does
    not depend on the decoder or on the body, a well-formed update
    included. *)
Theorem wrong_method_before_decoding Decode r :
  Method r <> "POST" ->
  HandleUpdate Decode r =
    (inl (errors_New "wrong HTTP method required POST"), r) /\
  (forall Decode' body',
     fst (HandleUpdate Decode' {| Method := Method r; Body := body' |}) =
     fst (HandleUpdate Decode r)).
Proof.
  intros Hm. split; [by apply HandleUpdate_wrong_method|].
  intros Decode' body'. by rewrite !HandleUpdate_wrong_method.
Qed.

Lemma wrong_method_before_decoding_witness :
  let body := strings_NewReader "update 7" in
  HandleUpdate toy_decoder {| Method := "GET"; Body := body |} =
    (inl (errors_New "wrong HTTP method required POST"),
     {| Method := "GET"; Body := body |}) /\
  fst (toy_decoder body) = inr (update 7).
Proof.
  intros body. split; [|reflexivity].
  apply (wrong_method_before_decoding toy_decoder
           {| Method := "GET"; Body := body |}).
  discriminate.
Defined.

(** ** The capacity of the queue *)

Lemma cap_step w a : cap (ch (step w a)) = cap (ch w).
Proof.
  unfold step. destruct (crash w); [done|]. destruct a as [MakeRequest| | |].
  - destruct (at_point w); try done. unfold enter_iteration, chan_close.
    repeat case_match; by simplify_eq.
  - destruct (at_point w) as [|[|u rest]| |]; try done.
    unfold range_turn, chan_send. repeat case_match; by simplify_eq.
  - assert (cap (ch (app_receive w)) = cap (ch w)) as Hrecv.
    { unfold app_receive, chan_recv. repeat case_match; by simplify_eq. }
    by destruct (at_point w).
  - assert (cap (ch (StopReceivingUpdates w)) = cap (ch w)) as Hstop.
    { unfold StopReceivingUpdates. by case_match. }
    by destruct (at_point w).
Qed.

Lemma cap_run schedule : forall w, cap (ch (run w schedule)) = cap (ch w).
Proof.
  induction schedule as [|a s IH]; intros w; [done|].
  by rewrite run_cons, IH, cap_step.
Qed.

Lemma GetUpdatesChan_negative_Buffer maxchan b cfg :
  Buffer b < 0 ->
  GetUpdatesChan maxchan b cfg = inl makechan_size_out_of_range.
Proof.
  intros H. unfold GetUpdatesChan. rewrite make_chan_out_of_range; [done|lia].
Qed.

(** C8.  A client built by [NewBotAPIWithClient] has [Buffer] 100.  Whenever
    [Buffer] is a size [make] accepts, [GetUpdatesChan] returns a channel,
    and so does [ListenForWebhook] when the pattern can be registered; the
    channel starts open and empty with the client's [Buffer] as its
    capacity, and with any other [Buffer] no channel is returned.  The
    capacity never changes and the queue never holds more.  Sending on a
    full channel parks the sender with its value and leaves the queue as it
    is: the webhook handler stays in [ch <- *update], and the polling
    goroutine in [ch <- update], until the application receives; the
    receive takes the oldest update and the parked one moves up, so it is
    published and not dropped. *)
Theorem queue_capacity_is_Buffer :
  (forall token endpoint self,
     exists b, NewBotAPIWithClient token endpoint (inr self) = inr b /\
               Buffer b = 100) /\
  (forall maxchan b cfg,
     0 <= Buffer b <= Z.of_N maxchan ->
     exists w, GetUpdatesChan maxchan b cfg = inr w) /\
  (forall maxchan b cfg w schedule,
     GetUpdatesChan maxchan b cfg = inr w ->
     0 <= Buffer b <= Z.of_N maxchan /\
     buf (ch w) = [] /\ cap (ch w) = Buffer b /\
     cap (ch (run w schedule)) = Buffer b /\
     Z.of_nat (length (buf (ch (run w schedule)))) <= Buffer b) /\
  (forall maxchan mux b pattern c mux',
     ListenForWebhook maxchan mux b pattern = inr (c, mux') <->
     0 <= Buffer b <= Z.of_N maxchan /\
     http_HandleFunc mux pattern = inr mux' /\
     c = {| buf := []; cap := Buffer b; closed := false; sendq := [] |}) /\
  (forall c u,
     closed c = false -> cap c <= Z.of_nat (length (buf c)) ->
     chan_send c u =
       SendParked {| buf := buf c; cap := cap c; closed := false;
                     sendq := sendq c ++ [u] |}) /\
  (forall Decode c r u,
     Method r = "POST" -> fst (Decode (Body r)) = inr u ->
     closed c = false -> sendq c = [] ->
     cap c <= Z.of_nat (length (buf c)) ->
     exists c',
       webhook_handler Decode c r = Forwarded (SendParked c') /\
       buf c' = buf c /\ sendq c' = [u] /\
       exists x c'',
         chan_recv c' = RecvValue x c'' /\
         x :: buf c'' = buf c ++ [u] /\ sendq c'' = []) /\
  (forall w u rest,
     wf w -> crash w = None -> at_point w = InRange (u :: rest) ->
     Offset (config w) <= UpdateID u ->
     cap (ch w) <= Z.of_nat (length (buf (ch w))) ->
     (at_point (step w Tick) = Sending rest /\
      sendq (ch (step w Tick)) = [u] /\
      buf (ch (step w Tick)) = buf (ch w) /\
      step (step w Tick) Tick = step w Tick) /\
     (at_point (run w [Tick; Receive]) = InRange rest /\
      published (run w [Tick; Receive]) = published w ++ [u])).
Proof.
  split; [|split; [|split; [|split; [|split; [|split]]]]].
  - intros token endpoint self. eexists. split; [reflexivity|done].
  - intros maxchan b cfg Hrange. unfold GetUpdatesChan.
    rewrite make_chan_fits by done. by eexists.
  - intros maxchan b cfg w schedule Hstart.
    pose proof (wf_GetUpdatesChan maxchan b cfg w Hstart) as Hwf.
    pose proof (wf_run w schedule Hwf) as (_ & _ & _ & Hlen).
    rewrite cap_run in *.
    apply GetUpdatesChan_inr in Hstart as [Hrange ->]. done.
  - intros maxchan mux b pattern c mux'. unfold ListenForWebhook. split.
    + destruct (make_chan maxchan (Buffer b)) as [p|c0] eqn:Hmake; [done|].
      apply make_chan_inr in Hmake as [Hrange ->].
      destruct (http_HandleFunc mux pattern); [done|]. by intros [= <- <-].
    + intros (Hrange & Hreg & ->). by rewrite make_chan_fits, Hreg.
  - intros c u Hopen Hfull. unfold chan_send. rewrite Hopen.
    by destruct (Z.ltb_spec (Z.of_nat (length (buf c))) (cap c)); [lia|].
  - intros Decode c r u Hm Hd Hopen Hq Hfull. unfold webhook_handler.
    rewrite HandleUpdate_post, Hd by done. unfold chan_send. rewrite Hopen.
    destruct (Z.ltb_spec (Z.of_nat (length (buf c))) (cap c)); [lia|].
    eexists. split; [reflexivity|]. simpl. rewrite Hq.
    split; [done|]. split; [done|]. unfold chan_recv. simpl.
    destruct (buf c) as [|x rest]; by eexists _, _.
  - intros w u rest Hwf Hc Hp Hge Hfull.
    pose proof Hwf as (Hopen & _ & Hq & _). specialize (Hopen Hc).
    rewrite Hp in Hq.
    assert (step w Tick =
            set_point (Sending rest)
              (set_ch {| buf := buf (ch w); cap := cap (ch w); closed := false;
                         sendq := [u] |}
                 (set_config (set_Offset (GoInt.add (UpdateID u) 1) (config w))
                    w))) as Ht.
    { unfold step. rewrite Hc, Hp. unfold range_turn, chan_send. poller_simpl.
      rewrite Hopen, Hq.
      destruct (Z.leb_spec (Offset (config w)) (UpdateID u)); [|lia].
      by destruct (Z.ltb_spec (Z.of_nat (length (buf (ch w)))) (cap (ch w)));
        [lia|]. }
    pose proof (wf_step w Tick Hwf) as Hwf1.
    assert (crash (step w Tick) = None) as Hc1 by (by rewrite Ht).
    split.
    + rewrite Ht. repeat split. unfold step. poller_simpl. by rewrite Hc.
    + unfold run. simpl. rewrite step_Receive by done.
      destruct (app_receive_point _ Hwf1 Hc1) as [_ Hp2].
      destruct (handed_over_app_receive _ Hwf1) as (Hh & _ & _).
      pose proof (wf_app_receive _ Hwf1) as (_ & _ & Hq2 & _).
      rewrite Ht in Hp2 at 2. poller_simpl. rewrite Hp2 in Hq2.
      split; [done|]. unfold handed_over in Hh. rewrite Hq2, app_nil_r in Hh.
      rewrite Hh, Ht. unfold published. by poller_simpl.
Qed.

Lemma queue_capacity_is_Buffer_witness :
  let full := set_point (InRange [update 9])
                (set_ch {| buf := [update 5]; cap := 1; closed := false;
                           sendq := [] |} (sample_poller 1 0)) in
  let hook := {| buf := [update 5]; cap := 1; closed := false; sendq := [] |} in
  Z.of_nat (length (buf (ch (run (sample_poller 1 0)
                               [Iter (answers [update 5; update 9]);
                                Tick; Tick])))) <= 1 /\
  ListenForWebhook sample_maxchan sample_mux (sample_bot 100) "/hook" =
    inr ({| buf := []; cap := 100; closed := false; sendq := [] |},
         {| registered := ["/hook"]; refuses := refuses sample_mux |}) /\
  (exists c' x c'',
     webhook_handler toy_decoder hook
       {| Method := "POST"; Body := strings_NewReader "update 7" |} =
       Forwarded (SendParked c') /\
     sendq c' = [update 7] /\
     chan_recv c' = RecvValue x c'' /\
     x :: buf c'' = [update 5; update 7]) /\
  at_point (step full Tick) = Sending [] /\
  published (run full [Tick; Receive]) = [update 5; update 9].
Proof.
  intros full hook.
  destruct queue_capacity_is_Buffer
    as (_ & _ & Hpoll & Hlisten & _ & Hhook & Hblock).
  split; [|split; [|split; [|split]]].
  - apply (Hpoll sample_maxchan (sample_bot 1) (sample_config 0)
             (sample_poller 1 0)
             [Iter (answers [update 5; update 9]); Tick; Tick] eq_refl).
  - apply (Hlisten sample_maxchan sample_mux (sample_bot 100) "/hook").
    split; [by vm_compute|]. split; reflexivity.
  - destruct (Hhook toy_decoder hook
                {| Method := "POST"; Body := strings_NewReader "update 7" |}
                (update 7) eq_refl eq_refl eq_refl eq_refl)
      as (c' & Hsend & _ & Hq & x & c'' & Hrecv & Hpub & _);
      [simpl; lia|].
    exists c', x, c''. split; [exact Hsend|]. split; [exact Hq|].
    split; [exact Hrecv|exact Hpub].
  - assert (wf full) as Hwf by (unfold wf; simpl; repeat split; done || lia).
    destruct (Hblock full (update 9) [] Hwf eq_refl eq_refl) as [[Hp _] _];
      [simpl; lia..|exact Hp].
  - assert (wf full) as Hwf by (unfold wf; simpl; repeat split; done || lia).
    destruct (Hblock full (update 9) [] Hwf eq_refl eq_refl) as [_ [_ Hpub]];
      [simpl; lia..|exact Hpub].
Defined.

(** * Properties of the request builders *)

Lemma pretty_N_go_length x : forall s,
  (String.length s <= String.length (pretty_N_go x s))%nat.
Proof.
  induction (N.lt_wf_0 x) as [x _ IH]; intros s.
  assert (x = 0 ∨ 0 < x)%N as [->|?] by lia; [by rewrite pretty_N_go_0|].
  rewrite pretty_N_go_step by done.
  etrans; [|by eapply IH, N.div_lt]. simpl. lia.
Qed.

Lemma strconv_FormatInt_nonempty i : strconv_FormatInt i <> "".
Proof.
  unfold strconv_FormatInt, pretty, pretty_Z.
  destruct i as [|p|p]; [done| |done].
  unfold pretty, pretty_positive, pretty, pretty_N. simpl.
  rewrite pretty_N_go_step by lia.
  intros H. pose proof (pretty_N_go_length (N.pos p `div` 10)
    (String (pretty_N_char (N.pos p `mod` 10)) "")) as Hlen.
  rewrite H in Hlen. simpl in Hlen. lia.
Qed.

Lemma strconv_FormatInt_inj i j :
  strconv_FormatInt i = strconv_FormatInt j -> i = j.
Proof. apply pretty_Z_inj. Qed.

Lemma Values_Add_same key x (v : gmap string (list string)) :
  Values_Add key x v !! key = Some (default [] (v !! key) ++ [x]).
Proof. unfold Values_Add. by rewrite lookup_insert_eq. Qed.

Lemma Add_if_set_same key p (v : gmap string (list string)) :
  Add_if_set key p v !! key =
    match p with
    | Some b => Some (default [] (v !! key) ++ [strconv_FormatBool b])
    | None => v !! key
    end.
Proof. destruct p; [apply Values_Add_same|done]. Qed.

Lemma Add_if_set_other key key' p (v : gmap string (list string)) :
  key <> key' -> Add_if_set key p v !! key' = v !! key'.
Proof. intros H. destruct p; [by apply Values_Add_other|done]. Qed.

Lemma Add_chat_id_same id name (v : gmap string (list string)) :
  Add_chat_id id name v !! "chat_id" =
    Some (default [] (v !! "chat_id") ++ [chat_id_of id name]).
Proof.
  unfold Add_chat_id, chat_id_of. destruct (String.eqb_spec name "");
    rewrite Values_Add_same; by case_decide.
Qed.

Lemma Add_chat_id_other id name key' (v : gmap string (list string)) :
  "chat_id" <> key' -> Add_chat_id id name v !! key' = v !! key'.
Proof.
  intros H. unfold Add_chat_id.
  destruct (String.eqb name ""); by apply Values_Add_other.
Qed.

Lemma if_Add_same (c : bool) key x (v : gmap string (list string)) :
  (if c then Values_Add key x v else v) !! key =
    if c then Some (default [] (v !! key) ++ [x]) else v !! key.
Proof. destruct c; [apply Values_Add_same|done]. Qed.

Lemma if_Add_other (c : bool) key key' x (v : gmap string (list string)) :
  key <> key' -> (if c then Values_Add key x v else v) !! key' = v !! key'.
Proof. intros H. destruct c; [by apply Values_Add_other|done]. Qed.

(** Looks a key up through the additions a builder makes. *)
Ltac form_lookup :=
  repeat first
    [ rewrite lookup_empty
    | rewrite Values_Add_other by keys_differ
    | rewrite Add_if_set_other by keys_differ
    | rewrite Add_chat_id_other by keys_differ
    | rewrite if_Add_other by keys_differ
    | rewrite Values_Add_same
    | rewrite Add_if_set_same
    | rewrite Add_chat_id_same
    | rewrite if_Add_same ];
  cbn [default app].

Lemma chat_id_of_nonempty id name : chat_id_of id name <> "".
Proof.
  unfold chat_id_of. case_decide; [apply strconv_FormatInt_nonempty|done].
Qed.

Lemma chatIDFromChatMemberConfig_nonempty config :
  chatIDFromChatMemberConfig config <> "".
Proof.
  unfold chatIDFromChatMemberConfig.
  destruct (String.eqb_spec (ChatMemberConfig.SuperGroupUsername config) "");
    simpl; [|done].
  destruct (String.eqb_spec (ChatMemberConfig.ChannelUsername config) "");
    simpl; [apply strconv_FormatInt_nonempty|done].
Qed.

(** X1.  The chat identifier sent for a chat member is never empty: it is
    the supergroup username when there is one, else the channel username
    when there is one, else the chat ID in decimal.  [UnbanChatMember] sends
    it as [chat_id], together with [user_id], and nothing else. *)
Theorem member_chat_id_never_empty (config : ChatMemberConfig.t) :
  let id := chatIDFromChatMemberConfig config in
  id <> "" /\
  id = (if decide (ChatMemberConfig.SuperGroupUsername config <> "")
        then ChatMemberConfig.SuperGroupUsername config
        else if decide (ChatMemberConfig.ChannelUsername config <> "")
        then ChatMemberConfig.ChannelUsername config
        else strconv_FormatInt (ChatMemberConfig.ChatID config)) /\
  UnbanChatMember config =
    {| endpoint := "unbanChatMember";
       form := {[ "chat_id" := [id];
                  "user_id" := [strconv_Itoa (ChatMemberConfig.UserID config)] ]}
    |}.
Proof.
  intros id. split; [apply chatIDFromChatMemberConfig_nonempty|]. split.
  - subst id. unfold chatIDFromChatMemberConfig.
    destruct (String.eqb_spec (ChatMemberConfig.SuperGroupUsername config) "");
      destruct (String.eqb_spec (ChatMemberConfig.ChannelUsername config) "");
      simpl; repeat (case_decide; try congruence); try done.
  - reflexivity.
Qed.

(** X2.  [LeaveChat], [GetChat], [GetChatAdministrators],
    [GetChatMembersCount] and [GetInviteLink] send a single parameter,
    [chat_id], and [GetChatMember] adds [user_id].  The identifier is the
    supergroup username when there is one and the chat ID in decimal
    otherwise; it is never empty, and without usernames two different chat
    IDs never give the same request. *)
Theorem chat_requests_identify_the_chat (config : ChatConfig.t)
    (member : ChatConfigWithUser.t) :
  let id := chat_id_of (ChatConfig.ChatID config)
              (ChatConfig.SuperGroupUsername config) in
  let only_chat_id : gmap string (list string) := {[ "chat_id" := [id] ]} in
  id <> "" /\
  LeaveChat config = {| endpoint := "leaveChat"; form := only_chat_id |} /\
  GetChat config = {| endpoint := "getChat"; form := only_chat_id |} /\
  GetChatAdministrators config =
    {| endpoint := "getChatAdministrators"; form := only_chat_id |} /\
  GetChatMembersCount config =
    {| endpoint := "getChatMembersCount"; form := only_chat_id |} /\
  GetInviteLink_request config =
    {| endpoint := "exportChatInviteLink"; form := only_chat_id |} /\
  GetChatMember member =
    {| endpoint := "getChatMember";
       form := {[ "chat_id" :=
                    [chat_id_of (ChatConfigWithUser.ChatID member)
                       (ChatConfigWithUser.SuperGroupUsername member)];
                  "user_id" :=
                    [strconv_Itoa (ChatConfigWithUser.UserID member)] ]} |} /\
  (forall other : ChatConfig.t,
     ChatConfig.SuperGroupUsername config = "" ->
     ChatConfig.SuperGroupUsername other = "" ->
     form (GetChat config) = form (GetChat other) ->
     ChatConfig.ChatID config = ChatConfig.ChatID other).
Proof.
  intros id only_chat_id.
  assert (forall c : ChatConfig.t,
            Add_chat_id (ChatConfig.ChatID c) (ChatConfig.SuperGroupUsername c) ∅
            = {[ "chat_id" := [chat_id_of (ChatConfig.ChatID c)
                                 (ChatConfig.SuperGroupUsername c)] ]})
    as Hone.
  { intros c. apply map_eq. intros key. split_key key ["chat_id"]; form_lookup;
      by rewrite ?lookup_singleton_eq, ?lookup_singleton_ne by keys_differ. }
  split; [apply chat_id_of_nonempty|].
  unfold LeaveChat, GetChat, GetChatAdministrators, GetChatMembersCount,
    GetInviteLink_request. rewrite !Hone.
  repeat (split; [done|]). split.
  - unfold GetChatMember. f_equal. apply map_eq. intros key.
    split_key key ["chat_id"; "user_id"]; form_lookup;
      by rewrite ?lookup_insert_eq, ?lookup_insert_ne, ?lookup_singleton_eq,
        ?lookup_singleton_ne, ?lookup_empty by keys_differ.
  - intros other Hc Ho. cbn [form]. rewrite !Hone. intros Heq.
    apply (f_equal (fun m : gmap string (list string) => m !! "chat_id")) in Heq.
    rewrite !lookup_singleton_eq in Heq. unfold chat_id_of in Heq.
    rewrite Hc, Ho in Heq. simpl in Heq.
    apply strconv_FormatInt_inj. congruence.
Qed.

Lemma chat_requests_identify_the_chat_witness :
  form (GetChat (ChatConfig.mk 42 "")) <> form (GetChat (ChatConfig.mk 43 "")).
Proof.
  intros Heq.
  destruct (chat_requests_identify_the_chat (ChatConfig.mk 42 "")
              (ChatConfigWithUser.mk 0 "" 0)) as (_ & _ & _ & _ & _ & _ & _ & Hinj).
  specialize (Hinj (ChatConfig.mk 43 "") eq_refl eq_refl Heq). discriminate Hinj.
Defined.

(** X3.  [KickChatMember] always sends [chat_id] and [user_id], each once;
    [until_date] is sent exactly when it is not zero, so a ban without a
    date carries no [until_date] at all.  Nothing else is sent. *)
Theorem KickChatMember_fields (config : KickChatMemberConfig.t) :
  let v := form (KickChatMember config) in
  endpoint (KickChatMember config) = "kickChatMember" /\
  v !! "chat_id" =
    Some [chat_id_of (KickChatMemberConfig.ChatID config)
            (KickChatMemberConfig.SuperGroupUsername config)] /\
  v !! "user_id" = Some [strconv_Itoa (KickChatMemberConfig.UserID config)] /\
  v !! "until_date" =
    (if decide (KickChatMemberConfig.UntilDate config = 0) then None
     else Some [strconv_FormatInt (KickChatMemberConfig.UntilDate config)]) /\
  dom v ⊆ ({[ "chat_id"; "user_id"; "until_date" ]} : gset string).
Proof.
  intros v. subst v. unfold KickChatMember. cbn [form endpoint].
  split; [done|]. repeat split; try (by form_lookup).
  - form_lookup.
    destruct (Z.eqb_spec (KickChatMemberConfig.UntilDate config) 0);
      by case_decide.
  - intros key [x Hx]%elem_of_dom. revert Hx.
    split_key key ["chat_id"; "user_id"; "until_date"]; [set_solver..|].
    by form_lookup.
Qed.

(** X4.  [RestrictChatMember] sends a permission exactly when its pointer
    is set, rendered as "true" or "false": a permission left nil is absent
    from the request, it is not sent as false.  [chat_id] and [user_id] are
    always sent, [until_date] only when not zero, every key once, and
    nothing else. *)
Theorem RestrictChatMember_fields (config : RestrictChatMemberConfig.t) :
  let member := RestrictChatMemberConfig.Member config in
  let v := form (RestrictChatMember config) in
  endpoint (RestrictChatMember config) = "restrictChatMember" /\
  v !! "chat_id" = Some [chatIDFromChatMemberConfig member] /\
  v !! "user_id" = Some [strconv_Itoa (ChatMemberConfig.UserID member)] /\
  v !! "can_send_messages" =
    sent_flag (RestrictChatMemberConfig.CanSendMessages config) /\
  v !! "can_send_media_messages" =
    sent_flag (RestrictChatMemberConfig.CanSendMediaMessages config) /\
  v !! "can_send_other_messages" =
    sent_flag (RestrictChatMemberConfig.CanSendOtherMessages config) /\
  v !! "can_add_web_page_previews" =
    sent_flag (RestrictChatMemberConfig.CanAddWebPagePreviews config) /\
  v !! "until_date" =
    (if decide (RestrictChatMemberConfig.UntilDate config = 0) then None
     else Some [strconv_FormatInt (RestrictChatMemberConfig.UntilDate config)]) /\
  dom v ⊆ ({[ "chat_id"; "user_id"; "can_send_messages";
              "can_send_media_messages"; "can_send_other_messages";
              "can_add_web_page_previews"; "until_date" ]} : gset string) /\
  single_valued v.
Proof.
  intros member v. subst member v. unfold RestrictChatMember, sent_flag.
  cbn [form endpoint]. split; [done|].
  repeat split; try (by form_lookup);
    try (form_lookup; by repeat case_match).
  - form_lookup.
    destruct (Z.eqb_spec (RestrictChatMemberConfig.UntilDate config) 0);
      by case_decide.
  - intros key [x Hx]%elem_of_dom. revert Hx.
    split_key key ["chat_id"; "user_id"; "can_send_messages";
                   "can_send_media_messages"; "can_send_other_messages";
                   "can_add_web_page_previews"; "until_date"];
      [set_solver..|]. by form_lookup.
  - intros key values.
    split_key key ["chat_id"; "user_id"; "can_send_messages";
                   "can_send_media_messages"; "can_send_other_messages";
                   "can_add_web_page_previews"; "until_date"];
      form_lookup; repeat case_match; intros; simplify_eq; eauto.
Qed.

(** X5.  [PromoteChatMember] sends each of the eight administrator rights
    exactly when its pointer is set, rendered as "true" or "false"; rights
    left nil are absent.  [chat_id] and [user_id] are always sent, every key
    once, and nothing else. *)
Theorem PromoteChatMember_fields (config : PromoteChatMemberConfig.t) :
  let member := PromoteChatMemberConfig.Member config in
  let v := form (PromoteChatMember config) in
  endpoint (PromoteChatMember config) = "promoteChatMember" /\
  v !! "chat_id" = Some [chatIDFromChatMemberConfig member] /\
  v !! "user_id" = Some [strconv_Itoa (ChatMemberConfig.UserID member)] /\
  v !! "can_change_info" =
    sent_flag (PromoteChatMemberConfig.CanChangeInfo config) /\
  v !! "can_post_messages" =
    sent_flag (PromoteChatMemberConfig.CanPostMessages config) /\
  v !! "can_edit_messages" =
    sent_flag (PromoteChatMemberConfig.CanEditMessages config) /\
  v !! "can_delete_messages" =
    sent_flag (PromoteChatMemberConfig.CanDeleteMessages config) /\
  v !! "can_invite_users" =
    sent_flag (PromoteChatMemberConfig.CanInviteUsers config) /\
  v !! "can_restrict_members" =
    sent_flag (PromoteChatMemberConfig.CanRestrictMembers config) /\
  v !! "can_pin_messages" =
    sent_flag (PromoteChatMemberConfig.CanPinMessages config) /\
  v !! "can_promote_members" =
    sent_flag (PromoteChatMemberConfig.CanPromoteMembers config) /\
  dom v ⊆ ({[ "chat_id"; "user_id"; "can_change_info"; "can_post_messages";
              "can_edit_messages"; "can_delete_messages"; "can_invite_users";
              "can_restrict_members"; "can_pin_messages";
              "can_promote_members" ]} : gset string) /\
  single_valued v.
Proof.
  intros member v. subst member v. unfold PromoteChatMember, sent_flag.
  cbn [form endpoint]. split; [done|].
  repeat split; try (by form_lookup);
    try (form_lookup; by repeat case_match).
  - intros key [x Hx]%elem_of_dom. revert Hx.
    split_key key ["chat_id"; "user_id"; "can_change_info";
                   "can_post_messages"; "can_edit_messages";
                   "can_delete_messages"; "can_invite_users";
                   "can_restrict_members"; "can_pin_messages";
                   "can_promote_members"];
      [set_solver..|]. by form_lookup.
  - intros key values.
    split_key key ["chat_id"; "user_id"; "can_change_info";
                   "can_post_messages"; "can_edit_messages";
                   "can_delete_messages"; "can_invite_users";
                   "can_restrict_members"; "can_pin_messages";
                   "can_promote_members"];
      form_lookup; repeat case_match; intros; simplify_eq; eauto.
Qed.

(** X6.  [AnswerCallbackQuery] always sends [callback_query_id],
    [show_alert] and [cache_time]; [text] and [url] are sent exactly when
    they are not empty; every key once, and nothing else. *)
Theorem AnswerCallbackQuery_fields (config : CallbackConfig.t) :
  let v := form (AnswerCallbackQuery config) in
  endpoint (AnswerCallbackQuery config) = "answerCallbackQuery" /\
  v !! "callback_query_id" = Some [CallbackConfig.CallbackQueryID config] /\
  v !! "show_alert" =
    Some [strconv_FormatBool (CallbackConfig.ShowAlert config)] /\
  v !! "cache_time" = Some [strconv_Itoa (CallbackConfig.CacheTime config)] /\
  v !! "text" =
    (if decide (CallbackConfig.Text config = "") then None
     else Some [CallbackConfig.Text config]) /\
  v !! "url" =
    (if decide (CallbackConfig.URL config = "") then None
     else Some [CallbackConfig.URL config]) /\
  dom v ⊆ ({[ "callback_query_id"; "text"; "show_alert"; "url";
              "cache_time" ]} : gset string).
Proof.
  intros v. subst v. unfold AnswerCallbackQuery. cbn [form endpoint].
  split; [done|]. repeat split; try (by form_lookup).
  - form_lookup. destruct (String.eqb_spec (CallbackConfig.Text config) "");
      by case_decide.
  - form_lookup. destruct (String.eqb_spec (CallbackConfig.URL config) "");
      by case_decide.
  - intros key [x Hx]%elem_of_dom. revert Hx.
    split_key key ["callback_query_id"; "text"; "show_alert"; "url";
                   "cache_time"]; [set_solver..|]. by form_lookup.
Qed.

(** X7.  An answer to a shipping or pre-checkout query carries
    [error_message] exactly when [OK] is false.  [AnswerShippingQuery]
    sends [shipping_options] exactly when [OK] is true, so the two never go
    together, and it fails without a request only when [OK] is true and the
    options cannot be marshalled: with [OK] false the options are not even
    looked at. *)
Theorem answers_carry_error_message_iff_not_OK
    (shipping : ShippingConfig.t) (checkout : PreCheckoutConfig.t) :
  (if ShippingConfig.OK shipping then
     match ShippingConfig.ShippingOptions shipping with
     | inl err => AnswerShippingQuery shipping = inl err
     | inr data =>
         exists r, AnswerShippingQuery shipping = inr r /\
           endpoint r = "answerShippingQuery" /\
           form r = {[ "shipping_query_id" :=
                         [ShippingConfig.ShippingQueryID shipping];
                       "ok" := ["true"];
                       "shipping_options" := [data] ]}
     end
   else
     exists r, AnswerShippingQuery shipping = inr r /\
       endpoint r = "answerShippingQuery" /\
       form r = {[ "shipping_query_id" :=
                     [ShippingConfig.ShippingQueryID shipping];
                   "ok" := ["false"];
                   "error_message" :=
                     [ShippingConfig.ErrorMessage shipping] ]}) /\
  AnswerPreCheckoutQuery checkout =
    {| endpoint := "answerPreCheckoutQuery";
       form :=
         if PreCheckoutConfig.OK checkout
         then {[ "pre_checkout_query_id" :=
                   [PreCheckoutConfig.PreCheckoutQueryID checkout];
                 "ok" := ["true"] ]}
         else {[ "pre_checkout_query_id" :=
                   [PreCheckoutConfig.PreCheckoutQueryID checkout];
                 "ok" := ["false"];
                 "error_message" :=
                   [PreCheckoutConfig.ErrorMessage checkout] ]} |}.
Proof.
  split.
  - unfold AnswerShippingQuery. destruct (ShippingConfig.OK shipping).
    + destruct (ShippingConfig.ShippingOptions shipping) as [err|data];
        [done|]. eexists. split; [reflexivity|]. split; [done|].
      apply map_eq. intros key. cbn [form].
      split_key key ["shipping_query_id"; "ok"; "shipping_options"];
        form_lookup;
        by rewrite ?lookup_insert_eq, ?lookup_insert_ne, ?lookup_singleton_eq,
          ?lookup_singleton_ne, ?lookup_empty by keys_differ.
    + eexists. split; [reflexivity|]. split; [done|].
      apply map_eq. intros key. cbn [form].
      split_key key ["shipping_query_id"; "ok"; "error_message"];
        form_lookup;
        by rewrite ?lookup_insert_eq, ?lookup_insert_ne, ?lookup_singleton_eq,
          ?lookup_singleton_ne, ?lookup_empty by keys_differ.
  - unfold AnswerPreCheckoutQuery. f_equal.
    destruct (PreCheckoutConfig.OK checkout); simpl;
      apply map_eq; intros key;
      split_key key ["pre_checkout_query_id"; "ok"; "error_message"];
        form_lookup;
        by rewrite ?lookup_insert_eq, ?lookup_insert_ne, ?lookup_singleton_eq,
          ?lookup_singleton_ne, ?lookup_empty by keys_differ.
Qed.

(** X8.  [GetUserProfilePhotos] always sends [user_id], and sends [offset]
    and [limit] whenever they are not zero.  Unlike [GetUpdates], which
    drops a negative limit, it passes a negative limit on. *)
Theorem GetUserProfilePhotos_fields (config : UserProfilePhotosConfig.t) :
  let v := form (GetUserProfilePhotos config) in
  endpoint (GetUserProfilePhotos config) = "getUserProfilePhotos" /\
  v !! "user_id" =
    Some [strconv_Itoa (UserProfilePhotosConfig.UserID config)] /\
  v !! "offset" =
    (if decide (UserProfilePhotosConfig.Offset config = 0) then None
     else Some [strconv_Itoa (UserProfilePhotosConfig.Offset config)]) /\
  v !! "limit" =
    (if decide (UserProfilePhotosConfig.Limit config = 0) then None
     else Some [strconv_Itoa (UserProfilePhotosConfig.Limit config)]) /\
  dom v ⊆ ({[ "user_id"; "offset"; "limit" ]} : gset string) /\
  (forall updates : UpdateConfig,
     UserProfilePhotosConfig.Limit config < 0 ->
     Limit updates = UserProfilePhotosConfig.Limit config ->
     is_Some (v !! "limit") /\ GetUpdates_values updates !! "limit" = None).
Proof.
  intros v. subst v. unfold GetUserProfilePhotos. cbn [form endpoint].
  split; [done|]. split; [by form_lookup|].
  split; [|split; [|split]].
  - form_lookup.
    destruct (Z.eqb_spec (UserProfilePhotosConfig.Offset config) 0);
      by case_decide.
  - form_lookup.
    destruct (Z.eqb_spec (UserProfilePhotosConfig.Limit config) 0);
      by case_decide.
  - intros key [x Hx]%elem_of_dom. revert Hx.
    split_key key ["user_id"; "offset"; "limit"]; [set_solver..|].
    by form_lookup.
  - intros updates Hneg Hlim. split.
    + form_lookup.
      destruct (Z.eqb_spec (UserProfilePhotosConfig.Limit config) 0); [lia|].
      by eexists.
    + rewrite GetUpdates_values_limit.
      destruct (Z.ltb_spec 0 (Limit updates)); [lia|done].
Qed.

Lemma GetUserProfilePhotos_fields_witness :
  is_Some (form (GetUserProfilePhotos (UserProfilePhotosConfig.mk 7 0 (-1)))
             !! "limit") /\
  GetUpdates_values {| Offset := 0; Limit := -1; Timeout := 0 |} !! "limit"
    = None.
Proof.
  destruct (GetUserProfilePhotos_fields (UserProfilePhotosConfig.mk 7 0 (-1)))
    as (_ & _ & _ & _ & _ & Hcontrast).
  apply (Hcontrast {| Offset := 0; Limit := -1; Timeout := 0 |}).
  - simpl. lia.
  - reflexivity.
Defined.

(** * Further properties of the polling loop *)

(** What a move adds to what was handed over: nothing, or one update that
    is not below the cursor; what is left of the batch shrinks with it. *)
Lemma handed_over_step w a :
  wf w ->
  (handed_over (step w a) = handed_over w /\
   (unvisited (step w a) = unvisited w \/
    unvisited w = [] /\ unvisited (step w a) = offer w a /\ is_Iter a = true \/
    exists u, unvisited w = u :: unvisited (step w a))) \/
  (exists u, handed_over (step w a) = handed_over w ++ [u] /\
     unvisited w = u :: unvisited (step w a) /\
     Offset (config w) <= UpdateID u /\
     Offset (config (step w a)) = GoInt.add (UpdateID u) 1).
Proof.
  intros Hwf. unfold step. destruct (crash w) eqn:Hc; [left; auto|].
  pose proof Hwf as (Hopen & _ & Hq & _). specialize (Hopen Hc).
  destruct a as [MakeRequest| | |].
  - left. destruct (at_point w) eqn:Hp; auto.
    unfold offer. rewrite Hc, Hp. unfold enter_iteration.
    destruct (shutdownChannel (bot w)).
    + unfold chan_close. rewrite Hopen, Hq.
      unfold handed_over, published, unvisited. poller_simpl.
      rewrite Hp, Hq. auto.
    + destruct (GetUpdates MakeRequest (config w)) as [err|updates];
        unfold handed_over, published, unvisited; poller_simpl;
        rewrite ?Hp; auto 10.
  - destruct (at_point w) as [|[|u rest]| |] eqn:Hp; auto.
    + left. unfold handed_over, published, unvisited. poller_simpl.
      rewrite Hp. auto.
    + unfold range_turn.
      destruct (Z.leb_spec (Offset (config w)) (UpdateID u)).
      * right. exists u. unfold chan_send. poller_simpl. rewrite Hopen.
        destruct (Z.of_nat (length (buf (ch w))) <? cap (ch w));
          unfold handed_over, published, unvisited; poller_simpl;
          rewrite Hp, Hq; simpl; rewrite ?app_nil_r, <- ?app_assoc; auto.
      * left. unfold handed_over, published, unvisited. poller_simpl.
        rewrite Hp. eauto.
  - left. destruct (handed_over_app_receive w Hwf) as (Hh & _ & Hu).
    assert (handed_over (app_receive w) = handed_over w /\
            unvisited (app_receive w) = unvisited w) as [? ?] by done.
    destruct (at_point w); auto.
  - left.
    assert (handed_over (StopReceivingUpdates w) = handed_over w /\
            unvisited (StopReceivingUpdates w) = unvisited w) as [? ?]
      by (unfold StopReceivingUpdates; by destruct (shutdownChannel (bot w))).
    destruct (at_point w); auto.
Qed.

Lemma offer_not_Iter w a : is_Iter a = false -> offer w a = [].
Proof. by destruct a. Qed.

Lemma sublist_step w a :
  wf w ->
  handed_over (step w a) ++ unvisited (step w a)
    `sublist_of` handed_over w ++ unvisited w ++ offer w a.
Proof.
  intros Hwf.
  destruct (handed_over_step w a Hwf)
    as [[-> [-> | [(-> & -> & _) | [u ->]]]] | (u & -> & -> & _)].
  - apply sublist_app; [done|]. by apply sublist_inserts_r.
  - done.
  - apply sublist_app; [done|]. simpl. by apply sublist_cons, sublist_inserts_r.
  - rewrite <- !app_assoc. simpl. apply sublist_app; [done|].
    by apply sublist_skip, sublist_inserts_r.
Qed.

Lemma sublist_run schedule : forall w,
  wf w ->
  handed_over (run w schedule) ++ unvisited (run w schedule)
    `sublist_of` handed_over w ++ unvisited w ++ offered w schedule.
Proof.
  induction schedule as [|a s IH]; intros w Hwf.
  - simpl. by rewrite app_nil_r.
  - rewrite run_cons. etrans; [by apply IH, wf_step|].
    cbn [offered]. rewrite !(app_assoc _ _ (offered _ _)).
    apply sublist_app; [|done]. by apply sublist_step.
Qed.

(** X9.  Whatever the network returns and however the goroutine and the
    application are scheduled, the published sequence is a subsequence of
    the fetched batches laid end to end: the loop drops updates, but it
    never invents one and never changes their order. *)
Theorem published_is_subsequence_of_fetched maxchan b cfg w0 schedule :
  GetUpdatesChan maxchan b cfg = inr w0 ->
  published (run w0 schedule) `sublist_of` offered w0 schedule.
Proof.
  intros Hstart. pose proof (wf_GetUpdatesChan maxchan b cfg w0 Hstart) as Hwf.
  pose proof (sublist_run schedule w0 Hwf) as Hsub.
  assert (handed_over w0 = [] /\ unvisited w0 = []) as [Hh Hu].
  { by apply GetUpdatesChan_inr in Hstart as [_ ->]. }
  rewrite Hh, Hu in Hsub. simpl in Hsub.
  etrans; [|exact Hsub]. unfold handed_over. rewrite <- app_assoc.
  by apply sublist_inserts_r.
Qed.

Lemma published_is_subsequence_of_fetched_witness :
  let schedule :=
    [Iter (answers [update 5; update 2; update 6]); Tick; Tick; Receive; Tick;
     Tick; Iter (answers [update 6; update 9])] in
  published (run (sample_poller 1 0) schedule)
    `sublist_of` [update 5; update 2; update 6; update 6; update 9].
Proof.
  intros schedule.
  apply (published_is_subsequence_of_fetched sample_maxchan (sample_bot 1) (sample_config 0)
           (sample_poller 1 0) schedule eq_refl).
Defined.

Lemma ascending_snoc l u :
  ascending l -> Forall (fun v => UpdateID v < UpdateID u) l ->
  ascending (l ++ [u]).
Proof.
  unfold ascending. induction l as [|x l IH]; intros Hs Hlt.
  - repeat constructor.
  - apply StronglySorted_inv in Hs as [Hs Hx].
    apply Forall_cons in Hlt as [Hxu Hlt]. simpl. constructor; [by apply IH|].
    apply Forall_app. split; [done|]. by apply Forall_cons.
Qed.

Lemma ascending_step initial w a :
  wf w -> tame a -> cursor_inv initial w ->
  ascending (handed_over w) ->
  Forall (fun u => initial <= UpdateID u) (handed_over w) ->
  initial <= Offset (config w) ->
  ascending (handed_over (step w a)) /\
  Forall (fun u => initial <= UpdateID u) (handed_over (step w a)).
Proof.
  intros Hwf Ha (Hbelow & _) Hasc Hlow Hinit.
  destruct (handed_over_step w a Hwf) as [[-> _] | (u & -> & _ & Hge & _)];
    [done|]. split.
  - apply ascending_snoc; [done|].
    eapply Forall_impl; [exact Hbelow|]. simpl. intros. lia.
  - apply Forall_app. split; [done|]. apply Forall_cons. split; [lia|done].
Qed.

Lemma ascending_run initial schedule : forall w,
  wf w -> Forall tame schedule -> cursor_inv initial w ->
  ascending (handed_over w) ->
  Forall (fun u => initial <= UpdateID u) (handed_over w) ->
  initial <= Offset (config w) ->
  ascending (handed_over (run w schedule)) /\
  Forall (fun u => initial <= UpdateID u) (handed_over (run w schedule)).
Proof.
  induction schedule as [|a s IH]; intros w Hwf Hs Hinv Hasc Hlow Hinit; [done|].
  apply Forall_cons in Hs as [Ha Hs]. rewrite run_cons.
  destruct (ascending_step initial w a Hwf Ha Hinv Hasc Hlow Hinit) as [? ?].
  destruct (cursor_inv_step initial w a Hwf Ha Hinv) as [? ?].
  apply IH; auto using wf_step. lia.
Qed.

(** X10.  In a session in which every fetched identifier is below the
    largest [int], the identifiers of the published updates are strictly
    increasing, so no update is delivered twice, whatever order or
    repetition the fetched batches have; and no update below the configured
    offset is ever published. *)
Theorem published_ids_strictly_increase maxchan b cfg w0 schedule :
  GetUpdatesChan maxchan b cfg = inr w0 ->
  Forall tame schedule ->
  ascending (published (run w0 schedule)) /\
  NoDup (UpdateID <$> published (run w0 schedule)) /\
  Forall (fun u => Offset cfg <= UpdateID u) (published (run w0 schedule)).
Proof.
  intros Hstart Htame.
  pose proof (wf_GetUpdatesChan maxchan b cfg w0 Hstart) as Hwf.
  pose proof (cursor_inv_GetUpdatesChan maxchan b cfg w0 Hstart) as Hinv.
  assert (handed_over w0 = [] /\ config w0 = cfg) as [Hh Hcfg].
  { by apply GetUpdatesChan_inr in Hstart as [_ ->]. }
  destruct (ascending_run (Offset cfg) schedule w0 Hwf Htame Hinv)
    as [Hasc Hlow].
  { rewrite Hh. constructor. }
  { rewrite Hh. constructor. }
  { rewrite Hcfg. lia. }
  unfold handed_over in Hasc, Hlow.
  assert (ascending (published (run w0 schedule))) as Hpub.
  { unfold ascending in *. revert Hasc.
    generalize (published (run w0 schedule)) as l.
    induction l as [|x l IH]; intros Hs; [constructor|].
    simpl in Hs. apply StronglySorted_inv in Hs as [Hs Hx].
    constructor; [by apply IH|]. by apply Forall_app in Hx as [? _]. }
  split; [done|]. split; [|by apply Forall_app in Hlow as [? _]].
  clear -Hpub. unfold ascending in Hpub.
  induction Hpub as [|x l Hs IH Hx]; [constructor|].
  rewrite fmap_cons. constructor; [|done].
  intros Hin. apply list_elem_of_fmap in Hin as (y & Heq & Hy).
  rewrite Forall_forall in Hx. specialize (Hx y Hy). lia.
Qed.

Lemma published_ids_strictly_increase_witness :
  let schedule :=
    [Iter (answers [update 5; update 5; update 2; update 6]);
     Tick; Tick; Tick; Tick; Tick;
     Iter (answers [update 6; update 9]); Tick; Tick; Tick] in
  NoDup (UpdateID <$> published (run (sample_poller 100 0) schedule)).
Proof.
  intros schedule.
  assert (Forall tame schedule) as Htame.
  { repeat (apply Forall_cons; split); try apply Forall_nil; try exact I.
    - intros ? v updates [= <-]. on_list.
    - intros ? v updates [= <-]. on_list. }
  destruct (published_ids_strictly_increase sample_maxchan (sample_bot 100) (sample_config 0)
              (sample_poller 100 0) schedule eq_refl Htame) as (_ & Hnodup & _).
  exact Hnodup.
Defined.

Lemma StopReceivingUpdates_first w :
  shutdownChannel (bot w) = false ->
  StopReceivingUpdates w = set_bot (set_shutdownChannel true (bot w)) w.
Proof. intros H. unfold StopReceivingUpdates. by rewrite H. Qed.

(** X11.  [StopReceivingUpdates] does not interrupt a batch in progress:
    the goroutine looks at the shutdown channel at the top of its loop only,
    so the rest of the current batch is still published, with the cursor
    advanced accordingly, before the stop takes effect. *)
Theorem stop_lets_the_batch_finish w rest :
  wf w -> crash w = None -> at_point w = InRange rest ->
  shutdownChannel (bot w) = false ->
  let w' := run w (Stop :: drain (S (length rest))) in
  crash w' = None /\ at_point w' = AtSelect /\
  shutdownChannel (bot w') = true /\
  published w' = published w ++ snd (range_loop (Offset (config w)) rest) /\
  Offset (config w') = fst (range_loop (Offset (config w)) rest).
Proof.
  intros Hwf Hc Hp Hsh w'. subst w'.
  rewrite run_cons, step_Stop, StopReceivingUpdates_first by done.
  set (w1 := set_bot _ w).
  assert (wf w1) as Hwf1 by (destruct Hwf as (? & ? & ? & ?); by split).
  destruct (drain_reaches_select rest w1 Hwf1 Hc Hp) as [Hc2 Hp2].
  pose proof (outcome_run w1 _ Hwf1 (drain_within_batch (S (length rest))))
    as Hout.
  rewrite outcome_AtSelect in Hout by auto using wf_run.
  assert (outcome w1 =
          (fst (range_loop (Offset (config w)) rest),
           published w ++ snd (range_loop (Offset (config w)) rest))) as Hw1.
  { destruct Hwf as (_ & _ & Hq & _). rewrite Hp in Hq.
    unfold outcome, unvisited, published. subst w1. poller_simpl.
    rewrite Hp, Hq. by destruct (range_loop (Offset (config w)) rest). }
  rewrite Hw1 in Hout. injection Hout as Ho Hpub.
  repeat split; try done.
  assert (forall s v, shutdownChannel (bot v) = true ->
            shutdownChannel (bot (run v s)) = true) as Hstay.
  { induction s as [|a s IH]; intros v Hv; [done|]. rewrite run_cons.
    apply IH. unfold step. destruct (crash v); [done|].
    destruct a as [MakeRequest| | |].
    - destruct (at_point v); try done. unfold enter_iteration. rewrite Hv.
      by repeat case_match.
    - destruct (at_point v) as [|[|u r]| |]; try done.
      unfold range_turn. by repeat case_match.
    - assert (bot (app_receive v) = bot v) as Hb
        by (unfold app_receive; by repeat case_match).
      destruct (at_point v); by rewrite Hb.
    - assert (shutdownChannel (bot (StopReceivingUpdates v)) = true) as Hb
        by (unfold StopReceivingUpdates; by rewrite Hv).
      by destruct (at_point v). }
  by apply Hstay.
Qed.

Lemma stop_lets_the_batch_finish_witness :
  let w := run (sample_poller 1 0)
             [Iter (answers [update 5; update 6; update 7]); Tick] in
  let w' := run w (Stop :: drain 3) in
  published w = [update 5] /\
  published w' = [update 5; update 6; update 7] /\
  Offset (config w') = 8 /\ shutdownChannel (bot w') = true.
Proof.
  intros w w'.
  assert (wf w) as Hwf by (apply wf_run, wf_sample_poller; lia).
  destruct (stop_lets_the_batch_finish w [update 6; update 7] Hwf
              eq_refl eq_refl eq_refl) as (_ & _ & Hsh & Hpub & Ho).
  split; [reflexivity|]. split; [exact Hpub|]. split; [exact Ho|exact Hsh].
Defined.

(** X12.  Once the shutdown channel is closed and the goroutine is at the
    top of its loop, the session is over: whatever is scheduled and whatever
    the network would answer, nothing is published any more and the cursor
    stays.  The next iteration ends in the panic of the double close, and a
    second [StopReceivingUpdates] panics as well, closing a closed
    channel. *)
Theorem nothing_published_after_stop w schedule :
  wf w -> at_point w = AtSelect -> shutdownChannel (bot w) = true ->
  published (run w schedule) = published w /\
  config (run w schedule) = config w /\
  (crash w = None ->
   crash (step w Stop) = Some close_of_closed_channel /\
   forall MakeRequest,
     crash (step w (Iter MakeRequest)) = Some close_of_closed_channel).
Proof.
  intros Hwf Hp Hsh.
  assert (forall s v, wf v -> at_point v = AtSelect ->
            shutdownChannel (bot v) = true ->
            published (run v s) = published v /\ config (run v s) = config v)
    as Hfrozen.
  { induction s as [|a s IH]; intros v Hv Hpv Hsv; [done|]. rewrite run_cons.
    destruct (crash v) eqn:Hcv; [by rewrite step_crashed, run_crashed by congruence|].
    destruct a as [MakeRequest| | |].
    - unfold step. rewrite Hcv, Hpv, enter_iteration_shutdown by done.
      by rewrite run_crashed.
    - assert (step v Tick = v) as -> by (unfold step; by rewrite Hcv, Hpv).
      by apply IH.
    - rewrite step_Receive by done.
      destruct (app_receive_point v Hv Hcv) as [_ Hp'].
      destruct (handed_over_app_receive v Hv) as (Hh & Hcfg & _).
      pose proof (wf_app_receive v Hv) as Hv'.
      pose proof Hv as (_ & _ & Hq & _). pose proof Hv' as (_ & _ & Hq' & _).
      rewrite Hpv in Hp'. rewrite Hp' in Hq'. rewrite Hpv in Hq.
      unfold handed_over in Hh. rewrite Hq, Hq', !app_nil_r in Hh.
      destruct (IH (app_receive v) Hv' Hp') as [-> ->]; [|done].
      unfold app_receive. by repeat case_match.
    - rewrite step_Stop by done. unfold StopReceivingUpdates. rewrite Hsv.
      by rewrite run_crashed. }
  destruct (Hfrozen schedule w Hwf Hp Hsh) as [? ?].
  split; [done|]. split; [done|]. intros Hc. split.
  - rewrite step_Stop by done. unfold StopReceivingUpdates. by rewrite Hsh.
  - intros MakeRequest. unfold step.
    by rewrite Hc, Hp, enter_iteration_shutdown.
Qed.

Lemma nothing_published_after_stop_witness :
  let w := run (sample_poller 100 0)
             [Iter (answers [update 5]); Tick; Tick; Stop] in
  published (run w [Receive; Iter (answers [update 6]); Tick; Receive])
    = [update 5].
Proof.
  intros w.
  assert (wf w) as Hwf by (apply wf_run, wf_sample_poller; lia).
  destruct (nothing_published_after_stop w
              [Receive; Iter (answers [update 6]); Tick; Receive]
              Hwf eq_refl eq_refl) as [Hpub _].
  exact Hpub.
Defined.

(** X13.  The [Buffer] field decides whether a session can start at all: a
    negative value makes both [GetUpdatesChan] and [ListenForWebhook] panic
    in [make]; with zero the channel has no queue, so at no moment of a
    polling session is an update waiting in it: every update passes straight
    from the goroutine to a receiving application. *)
Theorem Buffer_edge_cases maxchan mux b pattern cfg :
  (Buffer b < 0 ->
   GetUpdatesChan maxchan b cfg = inl makechan_size_out_of_range /\
   ListenForWebhook maxchan mux b pattern =
     inl makechan_size_out_of_range) /\
  (Buffer b = 0 ->
   exists w0, GetUpdatesChan maxchan b cfg = inr w0 /\
     forall schedule,
       buf (ch (run w0 schedule)) = [] /\
       published (run w0 schedule) = received (run w0 schedule)).
Proof.
  split.
  - intros Hneg. unfold GetUpdatesChan, ListenForWebhook.
    by rewrite make_chan_out_of_range by lia.
  - intros Hzero. unfold GetUpdatesChan.
    rewrite make_chan_fits, Hzero by lia.
    eexists. split; [reflexivity|]. intros schedule.
    set (w0 := mkPoller _ _ _ _ _ _ _ _).
    assert (wf w0) as Hwf by (unfold wf; simpl; repeat split; done || lia).
    pose proof (wf_run w0 schedule Hwf) as (_ & _ & _ & Hlen).
    rewrite cap_run in Hlen. simpl in Hlen.
    assert (buf (ch (run w0 schedule)) = []) as Hbuf
      by (destruct (buf (ch (run w0 schedule))); [done|simpl in Hlen; lia]).
    split; [done|]. unfold published. by rewrite Hbuf, app_nil_r.
Qed.

Lemma Buffer_edge_cases_witness :
  GetUpdatesChan sample_maxchan (sample_bot (-1)) (sample_config 0)
    = inl makechan_size_out_of_range /\
  ListenForWebhook sample_maxchan sample_mux (sample_bot (-1)) "/hook"
    = inl makechan_size_out_of_range /\
  buf (ch (run (sample_poller 0 0)
             [Iter (answers [update 5; update 6]); Tick; Tick; Receive; Tick]))
    = [].
Proof.
  destruct (Buffer_edge_cases sample_maxchan sample_mux (sample_bot (-1))
              "/hook" (sample_config 0)) as [Hneg _].
  destruct (Buffer_edge_cases sample_maxchan sample_mux (sample_bot 0)
              "/hook" (sample_config 0)) as [_ Hzero].
  split; [apply Hneg; simpl; lia|]. split; [apply Hneg; simpl; lia|].
  destruct (Hzero eq_refl) as (w0 & [= <-] & Hall).
  apply Hall.
Defined.

(** * Mentions *)

Lemma append_String a s t : String a s +:+ t = String a (s +:+ t).
Proof. reflexivity. Qed.

Lemma append_empty s : "" +:+ s = s.
Proof. reflexivity. Qed.

Lemma prefix_app s1 s2 :
  String.prefix s1 s2 = true <-> exists post, s2 = s1 +:+ post.
Proof.
  revert s2. induction s1 as [|a s1 IH]; intros s2.
  - split; [intros _; by exists s2|]. by destruct s2.
  - destruct s2 as [|c s2]; cbn [String.prefix].
    + split; [done|]. intros [post Hpost]. by rewrite append_String in Hpost.
    + destruct (Ascii.ascii_dec a c) as [->|Hne].
      * rewrite IH. split; intros [post Hpost]; exists post;
          rewrite append_String in *; congruence.
      * split; [done|]. intros [post Hpost].
        rewrite append_String in Hpost. congruence.
Qed.

Lemma strings_Contains_app s substr :
  strings_Contains s substr = true <->
  exists pre post, s = pre +:+ substr +:+ post.
Proof.
  split.
  - induction s as [|a s IH]; cbn [strings_Contains];
      rewrite orb_true_iff, prefix_app.
    + intros [[post ->]|?]; [|done]. by exists "", post.
    + intros [[post ->]|Hin]; [by exists "", post|].
      destruct (IH Hin) as (pre & post & ->). by exists (String a pre), post.
  - intros (pre & post & ->). induction pre as [|a pre IH].
    + rewrite append_empty.
      assert (String.prefix substr (substr +:+ post) = true) as Hp
        by (apply prefix_app; eauto).
      destruct (substr +:+ post); cbn [strings_Contains]; by rewrite Hp.
    + rewrite append_String. cbn [strings_Contains]. rewrite IH.
      apply orb_true_r.
Qed.

(** X14.  [IsMessageToMe] answers true exactly when the text contains an
    at-sign followed by the bot's user name, anywhere and followed by
    anything: a mention of a longer name that starts with the bot's name
    counts as well.  With a nil message, or a client whose [Self] is nil,
    the call panics. *)
Theorem IsMessageToMe_is_substring_search (b : BotAPI) (message : option Message) :
  (IsMessageToMe b message = None <-> message = None \/ Self b = None) /\
  (IsMessageToMe b message = Some true <->
   exists m self pre post,
     message = Some m /\ Self b = Some self /\
     Text m = pre +:+ "@" +:+ UserName self +:+ post) /\
  (forall self before suffix,
     Self b = Some self ->
     IsMessageToMe b
       (Some {| Text := before +:+ "@" +:+ UserName self +:+ suffix |})
     = Some true).
Proof.
  unfold IsMessageToMe. split; [|split].
  - destruct message, (Self b); (split; [intros ?|intros [?|?]]);
      first [ done | by left | by right ].
  - destruct message as [m|], (Self b) as [self|];
      try (split; [done|by intros (? & ? & ? & ? & ? & ? & ?)]).
    split.
    + intros [= Hc]. apply strings_Contains_app in Hc as (pre & post & Hc).
      exists m, self, pre, post. by rewrite Hc.
    + intros (m' & self' & pre & post & [= <-] & [= <-] & Ht). f_equal.
      apply strings_Contains_app. exists pre, post. by rewrite Ht.
  - intros self before suffix ->. f_equal. cbn [Text].
    apply strings_Contains_app. by exists before, suffix.
Qed.

Lemma IsMessageToMe_is_substring_search_witness :
  IsMessageToMe (sample_bot 100) (Some {| Text := "hi @sample_bot_two" |})
    = Some true.
Proof.
  destruct (IsMessageToMe_is_substring_search (sample_bot 100) None)
    as (_ & _ & Hlonger).
  apply (Hlonger {| UserName := "sample_bot" |} "hi " "_two" eq_refl).
Defined.

(** * Requests and answers *)

(** Closes the cases of a call that has been followed to its end. *)
Ltac outcome_leaf :=
  repeat match goal with
         | |- _ /\ _ => split
         | |- _ <-> _ => split
         | |- forall _, _ => intro
         end;
  repeat match goal with
         | H : _ /\ _ |- _ => destruct H
         | H : ex _ |- _ => destruct H
         | H : _ \/ _ |- _ => destruct H
         | H : is_Some _ |- _ => destruct H
         end;
  simplify_eq;
  repeat match goal with
         | H1 : ?x = _, H2 : ?x = _ |- _ => rewrite H1 in H2; simplify_eq
         end;
  try first [ done | congruence | by eexists | by eauto 10 ].

(** X15.  [MakeRequest] reports success exactly when the request could be
    built and sent, the answer decoded, the API accepted the call and the
    result, if one was asked for, could be unmarshalled.  A refused call
    comes back as the struct [Error] with the code and the description of
    the answer, and with zero parameters when the answer has none; the
    caller's target is then left untouched.  The decoded answer is handed
    back whenever there was one, and the function uses nothing of the
    environment but the formatting, the network and the decoder. *)
Theorem MakeRequest_outcome {R : Type} (o : outside) (b : BotAPI)
    (endpoint : string) (params : gmap string (list string))
    (result : option (string -> R * option error)) :
  let url := fmt_Sprintf o (apiEndpoint b) (Token b) endpoint in
  let sent := {| request_method := "POST"; request_url := url;
                 request_content_type :=
                   Some "application/x-www-form-urlencoded";
                 request_body_of := form_body params |} in
  let '(resp, err, value) := MakeRequest o b endpoint params result in
  (err = None <->
   http_NewRequest o "POST" url = None /\
   exists body apiResp,
     Client_Do o sent = inr body /\
     json_Decode_APIResponse o body = (apiResp, None) /\
     APIResponse.Ok apiResp = true /\
     match result with
     | Some unmarshal => snd (unmarshal (APIResponse.Result apiResp)) = None
     | None => True
     end) /\
  (forall body apiResp,
     http_NewRequest o "POST" url = None ->
     Client_Do o sent = inr body ->
     json_Decode_APIResponse o body = (apiResp, None) ->
     APIResponse.Ok apiResp = false ->
     resp = Some apiResp /\ value = None /\
     err = Some (Error_struct (APIResponse.ErrorCode apiResp)
                   (APIResponse.Description apiResp)
                   (default zero_ResponseParameters
                      (APIResponse.Parameters apiResp)))) /\
  (is_Some value ->
   is_Some result /\
   exists apiResp, resp = Some apiResp /\ APIResponse.Ok apiResp = true) /\
  (resp = None <->
   is_Some (http_NewRequest o "POST" url) \/
   exists e, Client_Do o sent = inl e) /\
  (forall o', same_network o o' ->
     MakeRequest o' b endpoint params result = (resp, err, value)).
Proof.
  intros url sent.
  destruct (MakeRequest o b endpoint params result) as [[resp err] value] eqn:HM.
  assert (forall o', same_network o o' ->
            MakeRequest o' b endpoint params result = (resp, err, value))
    as Hframe.
  { intros o' (Hf & Hn & Hd & Hj). rewrite <- HM. unfold MakeRequest.
    rewrite <- Hf, <- Hn.
    destruct (http_NewRequest o "POST" _); [done|]. rewrite <- Hd.
    destruct (Client_Do o _); [done|]. by rewrite <- Hj. }
  revert HM. unfold MakeRequest at 1. fold url. fold sent.
  destruct (http_NewRequest o "POST" url) as [e|] eqn:Hn;
    [intros [= <- <- <-]; outcome_leaf|].
  destruct (Client_Do o sent) as [e|body] eqn:Hd;
    [intros [= <- <- <-]; outcome_leaf|].
  destruct (json_Decode_APIResponse o body) as [apiResp [e|]] eqn:Hj;
    [intros [= <- <- <-]; outcome_leaf|].
  destruct (APIResponse.Ok apiResp) eqn:Hok; simpl;
    [|intros [= <- <- <-]; outcome_leaf; unfold refused;
      by destruct (APIResponse.Parameters apiResp)].
  destruct result as [unmarshal|]; [|intros [= <- <- <-]; outcome_leaf].
  destruct (unmarshal (APIResponse.Result apiResp)) as [v [e|]] eqn:Hu;
    intros [= <- <- <-]; outcome_leaf.
  - match goal with H : snd _ = None |- _ => by rewrite Hu in H end.
  - exists body, apiResp. by rewrite Hu.
Qed.

Lemma MakeRequest_outcome_witness :
  MakeRequest (R := unit) (answering (refusal 403 "Forbidden")) (sample_bot 100)
    "leaveChat" (form (LeaveChat (ChatConfig.mk 42 ""))) None
  = (Some (refusal 403 "Forbidden"),
     Some (Error_struct 403 "Forbidden" zero_ResponseParameters), None).
Proof.
  pose proof (MakeRequest_outcome (R := unit)
                (answering (refusal 403 "Forbidden")) (sample_bot 100)
                "leaveChat" (form (LeaveChat (ChatConfig.mk 42 ""))) None)
    as H.
  cbv zeta in H.
  destruct (MakeRequest _ _ _ _ _) as [[resp err] value].
  destruct H as (_ & Hrefused & _).
  destruct (Hrefused {| reader_data := "{}"; reader_error := None |}
              (refusal 403 "Forbidden") eq_refl eq_refl eq_refl eq_refl)
    as (-> & -> & ->).
  reflexivity.
Defined.

(** X16.  What [UploadFile] puts into the multipart body.  Bytes are
    announced with their own length; a reader whose size is -1 is read to
    the end and announced with the length of what was read, any other size
    is passed on as given and the reader is not touched; a path is announced
    with the size the file system reports.  A URL is not uploaded: it
    replaces the parameter named like the field, in the caller's map too,
    and no part is written.  A file of any other type is rejected with
    [ErrBadFileType] before anything is written or sent.  In every other
    case the parameters are written as they were given. *)
Theorem UploadFile_announces_sizes (o : outside) (b : BotAPI)
    (endpoint : string) (params : gmap string string) (fieldname : string) :
  (forall name bytes ms params',
     UploadFile_fill o params fieldname (file_FileBytes name bytes)
       = inr (ms, params') ->
     params' = params /\ fields ms = params /\
     part ms = Some {| part_key := fieldname; part_filename := name;
                       part_size := Z.of_nat (String.length bytes);
                       part_source := from_buffer bytes |}) /\
  (forall name r size ms params',
     UploadFile_fill o params fieldname (file_FileReader name r size)
       = inr (ms, params') ->
     params' = params /\ fields ms = params /\
     if decide (size = -1)
     then reader_error r = None /\
          part ms = Some {| part_key := fieldname; part_filename := name;
                            part_size :=
                              Z.of_nat (String.length (reader_data r));
                            part_source := from_buffer (reader_data r) |}
     else part ms = Some {| part_key := fieldname; part_filename := name;
                            part_size := size;
                            part_source := from_reader r |}) /\
  (forall path ms params',
     UploadFile_fill o params fieldname (file_path path) = inr (ms, params') ->
     params' = params /\ fields ms = params /\
     exists size, os_Stat o path = inr size /\
       part ms = Some {| part_key := fieldname; part_filename := path;
                         part_size := size;
                         part_source := from_file path |}) /\
  (forall rendered ms params',
     UploadFile_fill o params fieldname (file_URL rendered)
       = inr (ms, params') ->
     params' = <[fieldname := rendered]> params /\
     fields ms !! fieldname = Some rendered /\ part ms = None) /\
  (forall o', UploadFile_fill o' params fieldname file_other
              = inl (errors_New (ErrBadFileType o')) /\
              UploadFile o' b endpoint params fieldname file_other
              = (None, Some (plain (errors_New (ErrBadFileType o'))))).
Proof.
  unfold UploadFile, UploadFile_fill, ioutil_ReadAll.
  split; [|split; [|split; [|split]]].
  - intros name bytes ms params'. repeat case_match; intros; by simplify_eq.
  - intros name r size ms params'.
    destruct (Z.eqb_spec size (-1)); simpl; repeat case_match;
      intros; simplify_eq; done.
  - intros path ms params'. repeat case_match; intros; simplify_eq.
    repeat split; eauto.
  - intros rendered ms params'. repeat case_match; intros; simplify_eq.
    simpl. by rewrite lookup_insert_eq.
  - done.
Qed.

Lemma UploadFile_announces_sizes_witness :
  match UploadFile_fill (answering (accepted "{}")) {[ "chat_id" := "42" ]}
          "photo"
          (file_FileReader "cat.png"
             {| reader_data := "PNG!"; reader_error := None |} (-1)) with
  | inr (ms, _) => part_size <$> part ms = Some 4
  | inl _ => False
  end.
Proof.
  destruct (UploadFile_fill _ _ _ _) as [e|[ms params']] eqn:Hfill;
    [discriminate Hfill|].
  destruct (UploadFile_announces_sizes (answering (accepted "{}"))
              (sample_bot 100) "sendPhoto" {[ "chat_id" := "42" ]} "photo")
    as (_ & Hreader & _).
  destruct (Hreader _ _ _ _ _ Hfill) as (_ & _ & Hpart).
  destruct Hpart as [_ ->]. reflexivity.
Defined.

Lemma UploadFile_never_silent o b endpoint params fieldname file :
  UploadFile o b endpoint params fieldname file <> (None, None).
Proof.
  unfold UploadFile. repeat case_match; congruence.
Qed.

Lemma makeMessageRequest_frame o o' b endpoint params :
  same_network o o' ->
  (forall raw, json_Unmarshal_Message o raw = json_Unmarshal_Message o' raw) ->
  makeMessageRequest o b endpoint params = makeMessageRequest o' b endpoint params.
Proof.
  intros (Hf & Hn & Hd & Hj) Hm. unfold makeMessageRequest, MakeRequest.
  rewrite <- Hf, <- Hn. destruct (http_NewRequest o "POST" _); [done|].
  rewrite <- Hd. destruct (Client_Do o _); [done|]. rewrite <- Hj.
  destruct (json_Decode_APIResponse o _) as [apiResp [e|]]; [done|].
  destruct (negb (APIResponse.Ok apiResp)); [done|]. by rewrite <- Hm.
Qed.

Lemma MakeRequest_client_error {R : Type} o b endpoint params
    (result : option (string -> R * option error)) err :
  http_NewRequest o "POST" (fmt_Sprintf o (apiEndpoint b) (Token b) endpoint)
    = None ->
  Client_Do o (form_post o b endpoint params) = inl err ->
  MakeRequest o b endpoint params result = (None, Some (plain err), None).
Proof.
  intros Hn Hd. unfold MakeRequest. rewrite Hn.
  unfold form_post in Hd. by rewrite Hd.
Qed.

Lemma UploadFile_client_error o b endpoint params fieldname file ms params' err :
  UploadFile_fill o params fieldname file = inr (ms, params') ->
  http_NewRequest o "POST" (fmt_Sprintf o (apiEndpoint b) (Token b) endpoint)
    = None ->
  Client_Do o (multipart_post o b endpoint ms) = inl err ->
  UploadFile o b endpoint params fieldname file = (None, Some (plain err)).
Proof.
  intros Hfill Hn Hd. unfold UploadFile. rewrite Hfill, Hn.
  unfold multipart_post in Hd. by rewrite Hd.
Qed.

(** X17.  [Send] hands back a message or an error, never both and never
    neither (a new file that is a [url.URL] is left out: its
    request body has no reader).  An error of [values()] or [params()] is
    returned as it is, with nothing sent.  A plain [Chattable] goes out as
    a form request with its values, and a [Fileable] that uses an existing
    file is sent exactly like its [Chattable]: neither the file system nor
    the multipart streamer is touched.  A [Fileable] with a new file goes
    through [UploadFile] with its [params()], its name and its file: the
    client gets the multipart request the streamer was filled with, an
    error of the upload is the error of [Send], the result of an accepted
    upload is decoded into the message, and [values()] are not looked
    at. *)
Theorem Send_dispatch (o : outside) (b : BotAPI) :
  (forall c,
     (forall f rendered,
        c = inr f -> Fileable.useExistingFile f = false ->
        Fileable.getFile f <> file_URL rendered) ->
     match Send o b c with
     | (Some _, None) | (None, Some _) => True
     | _ => False
     end) /\
  (forall c v e,
     Chattable.values c = (v, Some e) ->
     Send o b (inl c) = (None, Some (plain e))) /\
  (forall f v e,
     Fileable.useExistingFile f = true ->
     Chattable.values (Fileable.chattable f) = (v, Some e) ->
     Send o b (inr f) = (None, Some (plain e))) /\
  (forall f p e,
     Fileable.useExistingFile f = false ->
     Fileable.params f = (p, Some e) ->
     Send o b (inr f) = (None, Some (plain e))) /\
  (forall c v err,
     Chattable.values c = (v, None) ->
     http_NewRequest o "POST"
       (fmt_Sprintf o (apiEndpoint b) (Token b) (Chattable.method c)) = None ->
     Client_Do o (form_post o b (Chattable.method c) v) = inl err ->
     Send o b (inl c) = (None, Some (plain err))) /\
  (forall f o',
     Fileable.useExistingFile f = true ->
     same_network o o' ->
     (forall raw, json_Unmarshal_Message o raw = json_Unmarshal_Message o' raw) ->
     Send o b (inr f) = Send o b (inl (Fileable.chattable f)) /\
     Send o' b (inr f) = Send o b (inr f)) /\
  (forall f values',
     Fileable.useExistingFile f = false ->
     Send o b (inr f) =
     Send o b (inr (Fileable.mk
                      (Chattable.mk values'
                         (Chattable.method (Fileable.chattable f)))
                      (Fileable.params f) (Fileable.name f)
                      (Fileable.getFile f) false))) /\
  (forall f p,
     Fileable.useExistingFile f = false ->
     Fileable.params f = (p, None) ->
     let method := Chattable.method (Fileable.chattable f) in
     let upload :=
       UploadFile o b method p (Fileable.name f) (Fileable.getFile f) in
     (forall resp err,
        upload = (resp, Some err) -> Send o b (inr f) = (None, Some err)) /\
     (forall resp,
        upload = (Some resp, None) ->
        Send o b (inr f) =
          match json_Unmarshal_Message o (APIResponse.Result resp) with
          | (_, Some err) => (None, Some (plain err))
          | (message, None) => (Some message, None)
          end) /\
     (forall ms params' err,
        UploadFile_fill o p (Fileable.name f) (Fileable.getFile f)
          = inr (ms, params') ->
        http_NewRequest o "POST"
          (fmt_Sprintf o (apiEndpoint b) (Token b) method) = None ->
        Client_Do o (multipart_post o b method ms) = inl err ->
        Send o b (inr f) = (None, Some (plain err)))).
Proof.
  split; [|split; [|split; [|split; [|split; [|split; [|split]]]]]].
  - intros [c|f] _; unfold Send, sendFile, sendChattable, sendExisting,
      uploadAndSend.
    + repeat case_match; simplify_eq; done.
    + destruct (Fileable.useExistingFile f).
      * repeat case_match; simplify_eq; done.
      * pose proof (UploadFile_never_silent o b
          (Chattable.method (Fileable.chattable f))
          (Fileable.params f).1 (Fileable.name f) (Fileable.getFile f)) as Hs.
        destruct (Fileable.params f) as [p [e|]]; [done|]. simpl in Hs.
        destruct (UploadFile o b _ p _ _) as [[resp|] [err|]]; try done.
        by repeat case_match.
  - intros c v e Hv. unfold Send, sendChattable. by rewrite Hv.
  - intros f v e Hu Hv. unfold Send, sendFile, sendExisting. by rewrite Hu, Hv.
  - intros f p e Hu Hp. unfold Send, sendFile, uploadAndSend. by rewrite Hu, Hp.
  - intros c v err Hv Hn Hd. unfold Send, sendChattable, makeMessageRequest.
    by rewrite Hv, (MakeRequest_client_error o b _ v _ err).
  - intros f o' Hu Hnet Hmsg. unfold Send, sendFile, sendExisting, sendChattable.
    rewrite Hu. split; [done|].
    destruct (Chattable.values (Fileable.chattable f)) as [v [e|]]; [done|].
    by rewrite (makeMessageRequest_frame o o').
  - intros f values' Hu. unfold Send, sendFile, uploadAndSend. by rewrite Hu.
  - intros f p Hu Hp method upload. subst method upload.
    unfold Send, sendFile, uploadAndSend. rewrite Hu, Hp.
    split; [|split].
    + intros resp err ->. by destruct resp.
    + intros resp ->. by destruct (json_Unmarshal_Message o _) as [m [e|]].
    + intros ms params' err Hfill Hn Hd.
      by rewrite (UploadFile_client_error o b _ p _ _ ms params' err).
Qed.

Lemma Send_dispatch_witness :
  let sticker :=
    Fileable.mk (Chattable.mk ({[ "sticker" := ["CAADAgAD"] ]}, None)
                   "sendSticker")
      (∅, Some (foreign_error "configs" "unused")) "sticker" file_other true in
  let photo :=
    Fileable.mk (Chattable.mk (∅, Some (foreign_error "configs" "unused"))
                   "sendPhoto")
      ({[ "chat_id" := "42" ]}, None) "photo"
      (file_FileBytes "cat.png" "PNG!") false in
  Send (answering_without_files (accepted "sent")) (sample_bot 100) (inr sticker)
    = (Some {| Text := "sent" |}, None) /\
  Send (answering (accepted "sent")) (sample_bot 100) (inr photo)
    = (Some {| Text := "sent" |}, None) /\
  Send (answering_without_files (accepted "sent")) (sample_bot 100) (inr photo)
    = (None, Some (plain (foreign_error "multipart" "closed"))).
Proof.
  intros sticker photo.
  destruct (Send_dispatch (answering (accepted "sent")) (sample_bot 100))
    as (_ & _ & _ & _ & _ & Hexisting & _ & Hnew).
  destruct (Send_dispatch (answering_without_files (accepted "sent"))
              (sample_bot 100)) as (_ & _ & _ & _ & _ & _ & _ & Hnew').
  split; [|split].
  - destruct (Hexisting sticker (answering_without_files (accepted "sent"))
                eq_refl) as [_ ->]; [by repeat split|done|reflexivity].
  - destruct (Hnew photo _ eq_refl eq_refl) as (_ & Hok & _).
    rewrite (Hok (accepted "sent")); reflexivity.
  - destruct (Hnew' photo _ eq_refl eq_refl) as (Hfail & _).
    apply (Hfail None). reflexivity.
Defined.

(** X18.  The methods that build their request from a configuration
    ([DeleteMessage], [PinChatMessage], [UnpinChatMessage], [SetChatTitle],
    [SetChatDescription], [DeleteChatPhoto]) return an error of [values()]
    without sending anything, and send the values when there is none.
    [GetGameHighScores] drops the error of [values()]: error or not, it
    makes the request with the values that came along, so that the client
    gets a form request carrying them, and reports only what the request
    reports. *)
Theorem GetGameHighScores_ignores_values_error {S : Type} (o : outside)
    (b : BotAPI) (config : Chattable.t) (v : gmap string (list string))
    (e : option error) (unmarshal : string -> list S * option error) :
  Chattable.values config = (v, e) ->
  let method := Chattable.method config in
  (request_of_config o b config =
     match e with
     | Some e => (None, Some (plain e))
     | None =>
         let '(resp, err, _) := MakeRequest (R := unit) o b method v None in
         (resp, err)
     end) /\
  (GetGameHighScores o b config unmarshal =
     let '(_, err, highScores) :=
       MakeRequest o b method v (Some unmarshal) in
     (default [] highScores, err)) /\
  (forall err,
     http_NewRequest o "POST" (fmt_Sprintf o (apiEndpoint b) (Token b) method)
       = None ->
     Client_Do o (form_post o b method v) = inl err ->
     GetGameHighScores o b config unmarshal = ([], Some (plain err))).
Proof.
  intros Hv method. subst method. unfold request_of_config, GetGameHighScores.
  rewrite Hv. split; [by destruct e|]. split; [done|].
  intros err Hn Hd.
  by rewrite (MakeRequest_client_error o b _ v _ err).
Qed.

Lemma GetGameHighScores_ignores_values_error_witness :
  let config :=
    Chattable.mk ({[ "user_id" := ["7"] ]},
                  Some (foreign_error "configs" "no target"))
      "getGameHighScores" in
  let down : outside :=
    {| fmt_Sprintf := fmt_Sprintf (answering (accepted "[]"));
       http_NewRequest := fun _ _ => None;
       Client_Do := fun req =>
         match request_body_of req with
         | form_body params =>
             if decide (params !! "user_id" = Some ["7"])
             then inl (foreign_error "net/http" "connection refused")
             else inr (strings_NewReader "{}")
         | multipart_body _ => inr (strings_NewReader "{}")
         end;
       json_Decode_APIResponse := fun _ => (accepted "[]", None);
       json_Unmarshal_APIResponse := fun _ => (accepted "[]", None);
       json_Unmarshal_Message := fun raw => ({| Text := raw |}, None);
       ms_WriteFields := fun _ => None;
       ms_WriteReader := fun _ => None;
       os_Open := fun _ => None;
       os_Stat := fun _ => inr 0;
       ErrBadFileType := "bad file type" |} in
  request_of_config (answering (accepted "[]")) (sample_bot 100) config
    = (None, Some (plain (foreign_error "configs" "no target"))) /\
  GetGameHighScores (S := Z) (answering (accepted "[]")) (sample_bot 100)
    config (fun _ => ([7; 3], None)) = ([7; 3], None) /\
  GetGameHighScores (S := Z) down (sample_bot 100)
    config (fun _ => ([7; 3], None))
    = ([], Some (plain (foreign_error "net/http" "connection refused"))).
Proof.
  intros config down.
  destruct (GetGameHighScores_ignores_values_error (S := Z)
              (answering (accepted "[]")) (sample_bot 100) config _ _
              (fun _ => ([7; 3], None)) eq_refl) as (Hreq & Hscores & _).
  destruct (GetGameHighScores_ignores_values_error (S := Z)
              down (sample_bot 100) config _ _
              (fun _ => ([7; 3], None)) eq_refl) as (_ & _ & Hdown).
  split; [exact Hreq|]. split; [rewrite Hscores; reflexivity|].
  apply Hdown; reflexivity.
Defined.

(** X19.  The parameters [SetWebhook] builds hold [url] always,
    [max_connections] exactly when it is not zero, and nothing else, with
    or without a certificate.  Without a certificate they go out as the
    form request [setWebhook], which is what the client gets, and nothing
    of the file system or of the multipart streamer is used.  With a
    certificate they go through [UploadFile] as the fields, with the
    certificate as the file [certificate], and the call hands back what the
    upload gives; with a certificate of an unsupported type it fails with
    [ErrBadFileType] and nothing is sent. *)
Theorem SetWebhook_fields (o : outside) (b : BotAPI) (config : WebhookConfig.t) :
  let connections :=
    if decide (WebhookConfig.MaxConnections config = 0) then None
    else Some (strconv_Itoa (WebhookConfig.MaxConnections config)) in
  let v := SetWebhook_values config in
  let params := SetWebhook_params config in
  (v !! "url" = Some [WebhookConfig.URL config] /\
   v !! "max_connections" = (fun x => [x]) <$> connections /\
   (forall key, key <> "url" -> key <> "max_connections" -> v !! key = None) /\
   params !! "url" = Some (WebhookConfig.URL config) /\
   params !! "max_connections" = connections /\
   (forall key, key <> "url" -> key <> "max_connections" ->
      params !! key = None)) /\
  (WebhookConfig.Certificate config = None ->
   SetWebhook o b config =
     (let '(resp, err, _) :=
        MakeRequest (R := unit) o b "setWebhook" v None in (resp, err)) /\
   (forall err,
      http_NewRequest o "POST"
        (fmt_Sprintf o (apiEndpoint b) (Token b) "setWebhook") = None ->
      Client_Do o (form_post o b "setWebhook" v) = inl err ->
      SetWebhook o b config = (None, Some (plain err))) /\
   (forall o', same_network o o' ->
      SetWebhook o' b config = SetWebhook o b config)) /\
  (forall certificate,
     WebhookConfig.Certificate config = Some certificate ->
     SetWebhook o b config =
       match UploadFile o b "setWebhook" params "certificate" certificate with
       | (_, Some err) => (None, Some err)
       | (resp, None) => (resp, None)
       end) /\
  (WebhookConfig.Certificate config = Some file_other ->
   SetWebhook o b config = (None, Some (plain (errors_New (ErrBadFileType o))))).
Proof.
  intros connections v params. subst connections v params.
  split; [|split; [|split]].
  - unfold SetWebhook_values, SetWebhook_params.
    destruct (Z.eqb_spec (WebhookConfig.MaxConnections config) 0);
      case_decide; try done; simpl; repeat split;
      try (intros key Hk1 Hk2); form_lookup;
      by rewrite ?lookup_insert_eq, ?lookup_insert_ne, ?lookup_empty
        by keys_differ.
  - intros Hc. split; [|split].
    + unfold SetWebhook. by rewrite Hc.
    + intros err Hn Hd. unfold SetWebhook. rewrite Hc.
      by rewrite (MakeRequest_client_error o b _ _ _ err).
    + intros o' (Hf & Hn & Hd & Hj). unfold SetWebhook, MakeRequest.
      rewrite Hc, <- Hf, <- Hn. destruct (http_NewRequest o "POST" _); [done|].
      rewrite <- Hd. destruct (Client_Do o _); [done|]. by rewrite <- Hj.
  - intros certificate Hc. unfold SetWebhook. by rewrite Hc.
  - intros Hc. unfold SetWebhook. by rewrite Hc.
Qed.

Lemma SetWebhook_fields_witness :
  let config := WebhookConfig.mk "https://example.org/hook" None 40 in
  let signed :=
    WebhookConfig.mk "https://example.org/hook"
      (Some (file_FileBytes "cert.pem" "PEM")) 0 in
  SetWebhook (answering_without_files (accepted "true")) (sample_bot 100) config
    = (Some (accepted "true"), None) /\
  SetWebhook (answering (refusal 400 "bad certificate")) (sample_bot 100) signed
    = (None, Some (Error_struct 400 "bad certificate" zero_ResponseParameters)).
Proof.
  intros config signed.
  destruct (SetWebhook_fields (answering (accepted "true")) (sample_bot 100)
              config) as (_ & Hplain & _ & _).
  destruct (SetWebhook_fields (answering (refusal 400 "bad certificate"))
              (sample_bot 100) signed) as (_ & _ & Hsigned & _).
  split.
  - destruct (Hplain eq_refl) as (_ & _ & Hframe).
    rewrite (Hframe (answering_without_files (accepted "true")));
      [reflexivity|by repeat split].
  - rewrite (Hsigned _ eq_refl). reflexivity.
Defined.
